(** * ClipBridge: the broadcast server of [clipbridge.py]

    A shallow embedding of the frame codec, the connection registry, the
    event-loop handlers and the clipboard watcher of [src/clipbridge.py],
    and the properties of the specification proved (or refuted) on it.

    Conventions.
    - [bytes] / [bytearray] are lists of [Byte.byte]; a byte is read as an
      integer with [byte_to_Z].
    - A Python [str] is a list of code points ([Z]).  Only Unicode scalar
      values can be encoded; [str.encode("utf-8")] raises on anything else.
    - A socket object is identified by a natural number (object identity).
    - Methods of [BridgeServer] are state transformers that may raise:
      [M A := BridgeServer -> BridgeServer * result A].  Assignments done
      before a [raise] stay in the state, as in Python.
    - Logging calls are dropped, except where evaluating their arguments can
      raise. *)

From Stdlib Require Import ZArith List Bool Lia Arith.
From Stdlib Require Import Strings.Byte.
Import ListNotations.

Local Open Scope Z_scope.

(* ================================================================== *)
(** ** Bytes *)

Definition bytes := list byte.

Definition byte_to_Z (b : byte) : Z := Z.of_N (Byte.to_N b).

(** [bytes([z])] for [0 <= z < 256]. *)
Definition byte_of_Z (z : Z) : byte :=
  match Byte.of_N (Z.to_N z) with
  | Some b => b
  | None => x00
  end.

(** [len(data)] *)
Definition len {A} (l : list A) : Z := Z.of_nat (length l).

(* ================================================================== *)
(** ** Python [str] and the UTF-8 codec of the runtime *)

Definition char := Z.
Definition str := list char.

Definition is_surrogate (c : Z) : bool := (0xD800 <=? c) && (c <=? 0xDFFF).

(** Unicode scalar values: what a [str] that came out of a decoder holds. *)
Definition is_scalar (c : Z) : bool :=
  (0 <=? c) && (c <? 0x110000) && negb (is_surrogate c).

(** UTF-8 encoding of one code point; [None] is [UnicodeEncodeError]. *)
Definition utf8_encode_char (c : char) : option bytes :=
  if c <? 0 then None
  else if c <? 0x80 then Some [byte_of_Z c]
  else if c <? 0x800 then
    Some [byte_of_Z (0xC0 + c / 64); byte_of_Z (0x80 + c mod 64)]
  else if c <? 0x10000 then
    if is_surrogate c then None
    else Some [byte_of_Z (0xE0 + c / 4096);
               byte_of_Z (0x80 + (c / 64) mod 64);
               byte_of_Z (0x80 + c mod 64)]
  else if c <? 0x110000 then
    Some [byte_of_Z (0xF0 + c / 262144);
          byte_of_Z (0x80 + (c / 4096) mod 64);
          byte_of_Z (0x80 + (c / 64) mod 64);
          byte_of_Z (0x80 + c mod 64)]
  else None.

(** [text.encode("utf-8")] *)
Fixpoint utf8_encode (t : str) : option bytes :=
  match t with
  | [] => Some []
  | c :: t' =>
      match utf8_encode_char c, utf8_encode t' with
      | Some bs, Some rest => Some (bs ++ rest)
      | _, _ => None
      end
  end.

(** A continuation byte, [10xxxxxx]. *)
Definition is_cont (b : byte) : bool :=
  (0x80 <=? byte_to_Z b) && (byte_to_Z b <? 0xC0).

Definition cont_bits (b : byte) : Z := byte_to_Z b - 0x80.

(** [payload.decode("utf-8")], strict: [None] is [UnicodeDecodeError].
    Overlong forms, surrogates, values above U+10FFFF and truncated
    sequences are rejected. *)
Fixpoint utf8_decode (bs : bytes) : option str :=
  match bs with
  | [] => Some []
  | b0 :: r0 =>
      let x0 := byte_to_Z b0 in
      if x0 <? 0x80 then option_map (cons x0) (utf8_decode r0)
      else if x0 <? 0xC0 then None
      else if x0 <? 0xE0 then
        match r0 with
        | b1 :: r1 =>
            let c := (x0 - 0xC0) * 64 + cont_bits b1 in
            if is_cont b1 && (0x80 <=? c)
            then option_map (cons c) (utf8_decode r1)
            else None
        | _ => None
        end
      else if x0 <? 0xF0 then
        match r0 with
        | b1 :: b2 :: r2 =>
            let c := (x0 - 0xE0) * 4096 + cont_bits b1 * 64 + cont_bits b2 in
            if is_cont b1 && is_cont b2 && (0x800 <=? c)
               && negb (is_surrogate c)
            then option_map (cons c) (utf8_decode r2)
            else None
        | _ => None
        end
      else if x0 <? 0xF8 then
        match r0 with
        | b1 :: b2 :: b3 :: r3 =>
            let c := (x0 - 0xF0) * 262144 + cont_bits b1 * 4096
                     + cont_bits b2 * 64 + cont_bits b3 in
            if is_cont b1 && is_cont b2 && is_cont b3
               && (0x10000 <=? c) && (c <? 0x110000)
            then option_map (cons c) (utf8_decode r3)
            else None
        | _ => None
        end
      else None
  end.

(* ================================================================== *)
(** ** Frame codec: [frame_text] and [struct.pack(">I", n)] *)

Definition MSG_TEXT : Z := 0x01.
Definition MAX_BYTES : Z := 1048576.

Inductive exn :=
| ValueError_payload_too_large
| UnicodeEncodeError
| StructError
| Diverged.

Inductive result (A : Type) :=
| Ok (a : A)
| Raise (e : exn).
Arguments Ok {A} a.
Arguments Raise {A} e.

(** [struct.pack(">I", n)]: four bytes, most significant first;
    [struct.error] outside [0 .. 2^32-1]. *)
Definition pack_be32 (n : Z) : result bytes :=
  if (0 <=? n) && (n <? 4294967296) then
    Ok [byte_of_Z (n / 16777216);
        byte_of_Z ((n / 65536) mod 256);
        byte_of_Z ((n / 256) mod 256);
        byte_of_Z (n mod 256)]
  else Raise StructError.

(** [struct.unpack(">I", b)[0]] on a four-byte slice. *)
Definition unpack_be32 (b1 b2 b3 b4 : byte) : Z :=
  byte_to_Z b1 * 16777216 + byte_to_Z b2 * 65536
  + byte_to_Z b3 * 256 + byte_to_Z b4.

(** [frame_text(text)] *)
Definition frame_text (text : str) : result bytes :=
  match utf8_encode text with
  | None => Raise UnicodeEncodeError
  | Some data =>
      if len data >? MAX_BYTES then Raise ValueError_payload_too_large
      else
        match pack_be32 (len data) with
        | Ok hdr => Ok (byte_of_Z MSG_TEXT :: hdr ++ data)
        | Raise e => Raise e
        end
  end.

(* ================================================================== *)
(** ** The frame decoder of [_process_frames] *)

(** What one turn of the [while True] loop finds at the head of the
    receive buffer (lines 210-224). *)
Inductive header_step :=
| NeedMore                                  (* [break] *)
| BadFrameType                              (* drop, [return] *)
| BadFrameLength (length : Z)               (* drop, [return] *)
| Complete (payload rest : bytes).          (* slice and [del] *)

Definition parse_head (buf : bytes) : header_step :=
  match buf with
  | b0 :: b1 :: b2 :: b3 :: b4 :: body =>
      if negb (byte_to_Z b0 =? MSG_TEXT) then BadFrameType
      else
        let length := unpack_be32 b1 b2 b3 b4 in
        if (length <? 0) || (length >? MAX_BYTES) then BadFrameLength length
        else if len buf <? 5 + length then NeedMore
        else Complete (firstn (Z.to_nat length) body)
                      (skipn (Z.to_nat length) body)
  | _ => NeedMore
  end.

Inductive drop_reason := BadType | BadLength (length : Z).

(** A connection as the decoder sees it: registered with pending bytes,
    or dropped (its [ClientState] is gone with it). *)
Inductive conn_status :=
| Open (residue : bytes)
| Dropped (why : drop_reason).

(** The loop of [_process_frames] with the handler abstracted to "collect
    the text": the texts handed to [_on_text_from_client], in order, and how
    the loop ends.  Every turn that goes round again removes at least five
    bytes, so the buffer length bounds the turns; [None] is fuel running
    out. *)
Definition deliver (payload : bytes) (later : option (list str * conn_status))
  : option (list str * conn_status) :=
  match later with
  | None => None
  | Some (ts, s) =>
      match utf8_decode payload with
      | Some text => Some (text :: ts, s)
      | None => Some (ts, s)                   (* [continue] *)
      end
  end.

Fixpoint decode_loop (fuel : nat) (buf : bytes)
  : option (list str * conn_status) :=
  match fuel with
  | O => None
  | S fuel' =>
      match parse_head buf with
      | NeedMore => Some ([], Open buf)
      | BadFrameType => Some ([], Dropped BadType)
      | BadFrameLength n => Some ([], Dropped (BadLength n))
      | Complete payload rest => deliver payload (decode_loop fuel' rest)
      end
  end.

Definition decode_frames (buf : bytes) : option (list str * conn_status) :=
  decode_loop (S (length buf)) buf.

(** One readable event on a connection, decoder view: append the chunk to
    the buffer and decode until no complete frame is left.  Nothing more is
    read from a dropped connection. *)
Definition feed (acc : option (list str * conn_status)) (chunk : bytes)
  : option (list str * conn_status) :=
  match acc with
  | Some (seen, Open buf) =>
      match decode_frames (buf ++ chunk) with
      | Some (ts, s) => Some (seen ++ ts, s)
      | None => None
      end
  | other => other
  end.

Definition fresh_conn : option (list str * conn_status) := Some ([], Open []).

Definition feed_chunks (chunks : list bytes) :=
  fold_left feed chunks fresh_conn.

Definition feed_at_once (bs : bytes) := feed fresh_conn bs.

Definition feed_bytewise (bs : bytes) :=
  feed_chunks (map (fun b => [b]) bs).

(* ================================================================== *)
(** ** Server state *)

Definition sock := nat.

(** How [sock.sendall(payload)] ends: it returns, raises
    [BlockingIOError], or raises something else. *)
Inductive send_result := Sent | WouldBlock | SendFailed.

Record send_event := SendEvent {
  ev_sock : sock;
  ev_payload : bytes;
  ev_result : send_result
}.

(** A call of [write_clipboard_text], with the value [_last_sent_from_pc]
    had when the call was made. *)
Record clip_write := ClipWrite {
  cw_text : str;
  cw_guard : option str
}.

(** [BridgeServer] and the part of the world it acts on.  Each
    [ClientState] is created for one socket and found through it, so the
    heap of [ClientState] objects is indexed by socket: [clients] is the
    key list of the dict [self.clients] in insertion order, [rbuf s] the
    [rbuf] of the [ClientState] made for [s]. *)
Record BridgeServer := Server {
  clients : list sock;
  rbuf : sock -> bytes;
  to_broadcast : list bytes;
  _last_polled : option str;
  _last_sent_from_pc : option str;
  selector : list sock;            (* registered for read readiness *)
  closed : list sock;              (* [close()] was called *)
  wire : list send_event;          (* every [sendall], oldest first *)
  clip_writes : list clip_write    (* every clipboard write, oldest first *)
}.

Definition M (A : Type) : Type := BridgeServer -> BridgeServer * result A.

Definition ret {A} (a : A) : M A := fun st => (st, Ok a).

Definition bind {A B} (m : M A) (k : A -> M B) : M B :=
  fun st =>
    match m st with
    | (st', Ok a) => k a st'
    | (st', Raise e) => (st', Raise e)
    end.

Definition lift {A} (r : result A) : M A := fun st => (st, r).

Definition modify (f : BridgeServer -> BridgeServer) : M unit :=
  fun st => (f st, Ok tt).

Notation "x <- m ;; k" := (bind m (fun x => k))
  (at level 61, m at next level, right associativity).
Notation "m ;; k" := (bind m (fun _ => k))
  (at level 61, right associativity).

Fixpoint str_eqb (a b : str) : bool :=
  match a, b with
  | [], [] => true
  | x :: a', y :: b' => (x =? y) && str_eqb a' b'
  | _, _ => false
  end.

(** [txt != field] for a field that is [None] or a [str]. *)
Definition differs (txt : str) (field : option str) : bool :=
  match field with
  | None => true
  | Some s => negb (str_eqb txt s)
  end.

Definition set_rbuf (s : sock) (b : bytes) (st : BridgeServer) :=
  Server (clients st)
         (fun s' => if Nat.eqb s' s then b else rbuf st s')
         (to_broadcast st) (_last_polled st) (_last_sent_from_pc st)
         (selector st) (closed st) (wire st) (clip_writes st).

Definition set_last_sent (t : str) (st : BridgeServer) :=
  Server (clients st) (rbuf st) (to_broadcast st) (_last_polled st)
         (Some t) (selector st) (closed st) (wire st) (clip_writes st).

Definition set_last_polled (t : str) (st : BridgeServer) :=
  Server (clients st) (rbuf st) (to_broadcast st) (Some t)
         (_last_sent_from_pc st) (selector st) (closed st) (wire st)
         (clip_writes st).

Definition set_queue (q : list bytes) (st : BridgeServer) :=
  Server (clients st) (rbuf st) q (_last_polled st)
         (_last_sent_from_pc st) (selector st) (closed st) (wire st)
         (clip_writes st).

Definition remove_sock (s : sock) (l : list sock) : list sock :=
  filter (fun s' => negb (Nat.eqb s' s)) l.

(** [text.encode("utf-8")] evaluated for its length only. *)
Definition encoded_length (text : str) : M Z :=
  match utf8_encode text with
  | Some data => ret (len data)
  | None => lift (Raise UnicodeEncodeError)
  end.

(** [write_clipboard_text(text)]: the writer tool is invoked; whether one
    was found only reaches the log. *)
Definition write_clipboard_text (text : str) : M unit :=
  modify (fun st =>
    Server (clients st) (rbuf st) (to_broadcast st) (_last_polled st)
           (_last_sent_from_pc st) (selector st) (closed st) (wire st)
           (clip_writes st ++ [ClipWrite text (_last_sent_from_pc st)])).

(** [_drop_client(sock)]: pop from the registry, unregister, close. *)
Definition _drop_client (s : sock) : M unit :=
  modify (fun st =>
    Server (remove_sock s (clients st)) (rbuf st) (to_broadcast st)
           (_last_polled st) (_last_sent_from_pc st)
           (remove_sock s (selector st)) (s :: closed st) (wire st)
           (clip_writes st)).

Section Network.

(** The peers and the kernel decide how a [sendall] ends; the decision may
    depend on everything sent so far. *)
Variable net : list send_event -> sock -> bytes -> send_result.

Definition sendall (c : sock) (payload : bytes) : M send_result :=
  fun st =>
    let r := net (wire st) c payload in
    (Server (clients st) (rbuf st) (to_broadcast st) (_last_polled st)
            (_last_sent_from_pc st) (selector st) (closed st)
            (wire st ++ [SendEvent c payload r]) (clip_writes st),
     Ok r).

Definition is_excluded (c : sock) (exclude : option sock) : bool :=
  match exclude with
  | Some e => Nat.eqb c e
  | None => false
  end.

(** The [for c in targets] loop of [_broadcast]. *)
Fixpoint broadcast_to (targets : list sock) (payload : bytes)
         (exclude : option sock) : M unit :=
  match targets with
  | [] => ret tt
  | c :: rest =>
      if is_excluded c exclude then broadcast_to rest payload exclude
      else
        r <- sendall c payload ;;
        match r with
        | Sent => ret tt
        | WouldBlock => _drop_client c
        | SendFailed => _drop_client c
        end ;;
        broadcast_to rest payload exclude
  end.

(** [_broadcast(payload, exclude)] *)
Definition _broadcast (payload : bytes) (exclude : option sock) : M unit :=
  fun st => broadcast_to (clients st) payload exclude st.

(** [_on_text_from_client(sender, text)] *)
Definition _on_text_from_client (sender : sock) (text : str) : M unit :=
  modify (set_last_sent text) ;;
  write_clipboard_text text ;;
  encoded_length text ;;
  payload <- lift (frame_text text) ;;
  _broadcast payload (Some sender).

(** The [while True] loop of [_process_frames] on the buffer of the
    [ClientState] of [s]. *)
Fixpoint process_loop (fuel : nat) (s : sock) : M unit :=
  match fuel with
  | O => lift (Raise Diverged)
  | S fuel' =>
      fun st =>
        match parse_head (rbuf st s) with
        | NeedMore => ret tt st
        | BadFrameType => _drop_client s st
        | BadFrameLength _ => _drop_client s st
        | Complete payload rest =>
            let st1 := set_rbuf s rest st in
            match utf8_decode payload with
            | None => process_loop fuel' s st1
            | Some text =>
                (_on_text_from_client s text ;; process_loop fuel' s) st1
            end
        end
  end.

(** [_process_frames(state)] *)
Definition _process_frames (s : sock) : M unit :=
  fun st => process_loop (S (length (rbuf st s))) s st.

(** How [sock.recv(65536)] ends. *)
Inductive recv_result :=
| RecvData (chunk : bytes)
| RecvWouldBlock
| RecvFailed.

(** [_handle_client(sock)] *)
Definition _handle_client (s : sock) (r : recv_result) : M unit :=
  fun st =>
    if negb (existsb (Nat.eqb s) (clients st)) then _drop_client s st
    else
      match r with
      | RecvWouldBlock => ret tt st
      | RecvFailed => _drop_client s st
      | RecvData [] => _drop_client s st
      | RecvData chunk =>
          _process_frames s (set_rbuf s (rbuf st s ++ chunk) st)
      end.

(** [self.clients[conn] = ClientState(conn, label)] and
    [self.sel.register(conn, EVENT_READ)] *)
Definition register_client (conn : sock) (st : BridgeServer) :=
  Server (if existsb (Nat.eqb conn) (clients st) then clients st
          else clients st ++ [conn])
         (fun s' => if Nat.eqb s' conn then [] else rbuf st s')
         (to_broadcast st) (_last_polled st) (_last_sent_from_pc st)
         (selector st ++ [conn]) (closed st) (wire st) (clip_writes st).

(** [_accept()], given the accepted socket and what
    [read_clipboard_text(timeout=0.5)] returned. *)
Definition _accept (conn : sock) (read : bool * option str) : M unit :=
  modify (register_client conn) ;;
  match read with
  | (true, Some txt) =>
      if negb (str_eqb txt []) then
        match frame_text txt with
        | Raise _ => _drop_client conn
        | Ok payload =>
            r <- sendall conn payload ;;
            match r with
            | Sent => ret tt
            | WouldBlock => _drop_client conn
            | SendFailed => _drop_client conn
            end
        end
      else ret tt
  | _ => ret tt
  end.

(** [_broadcast_pending()]: drain the queue, oldest first. *)
Fixpoint flush (q : list bytes) : M unit :=
  match q with
  | [] => ret tt
  | payload :: q' =>
      modify (set_queue q') ;;
      _broadcast payload None ;;
      flush q'
  end.

Definition _broadcast_pending : M unit :=
  fun st => flush (to_broadcast st) st.

End Network.

(** [queue_from_pc(text)] *)
Definition queue_from_pc (text : str) : M unit :=
  modify (set_last_sent text) ;;
  payload <- lift (frame_text text) ;;
  modify (fun st => set_queue (to_broadcast st ++ [payload]) st) ;;
  encoded_length text ;;
  ret tt.

(** One turn of [_clipboard_watch_loop], given what
    [read_clipboard_text(timeout=1.0)] returned. *)
Definition watch_tick (read : bool * option str) : M unit :=
  fun st =>
    match read with
    | (true, Some txt) =>
        if differs txt (_last_polled st) then
          ((if differs txt (_last_sent_from_pc st) then
              if negb (str_eqb txt []) then queue_from_pc txt else ret tt
            else ret tt) ;;
           modify (set_last_polled txt)) st
        else ret tt st
    | (true, None) => ret tt st
    | (false, _) => ret tt st
    end.

(* ================================================================== *)
(** ** Vocabulary of the statements *)

(** A send that did not return. *)
Definition send_failed (e : send_event) : bool :=
  match ev_result e with
  | Sent => false
  | _ => true
  end.

(** The [sendall] calls one [_broadcast] makes, given the wire so far. *)
Fixpoint broadcast_events (net : list send_event -> sock -> bytes -> send_result)
         (w : list send_event) (targets : list sock) (payload : bytes)
         (exclude : option sock) : list send_event :=
  match targets with
  | [] => []
  | c :: rest =>
      if is_excluded c exclude
      then broadcast_events net w rest payload exclude
      else
        let e := SendEvent c payload (net w c payload) in
        e :: broadcast_events net (w ++ [e]) rest payload exclude
  end.

Definition failed_socks (evs : list send_event) : list sock :=
  map ev_sock (filter send_failed evs).

Definition drop_all (failed : list sock) (l : list sock) : list sock :=
  fold_left (fun acc s => remove_sock s acc) failed l.

(** The sends addressed to one connection. *)
Definition events_of (c : sock) (evs : list send_event) : list send_event :=
  filter (fun e => Nat.eqb (ev_sock e) c) evs.

(** The state in which [_on_text_from_client] reaches its broadcast. *)
Definition mark_applied (text : str) (st : BridgeServer) : BridgeServer :=
  Server (clients st) (rbuf st) (to_broadcast st) (_last_polled st)
         (Some text) (selector st) (closed st) (wire st)
         (clip_writes st ++ [ClipWrite text (Some text)]).

(** The frame of the empty text, [01 00 00 00 00]. *)
Definition empty_frame : bytes := [x01; x00; x00; x00; x00].

(** ** Sample inputs *)

(** A server just constructed: no client, nothing observed. *)
Definition idle_server : BridgeServer :=
  Server [] (fun _ => []) [] None None [] [] [] [].

(** ["a" * 1048577]: one byte more than a frame may carry. *)
Definition big_text : str := repeat 97 (Z.to_nat 1048577).

(** ["hello"] and its UTF-8 form. *)
Definition hello : str := [104; 101; 108; 108; 111].
Definition hello_utf8 : bytes := [x68; x65; x6c; x6c; x6f].

(** Three peers connected, buffers empty. *)
Definition three_clients : BridgeServer :=
  Server [1; 2; 3]%nat (fun _ => []) [] None None [1; 2; 3]%nat [] [] [].

(** Peer 1 has sent a complete frame whose one payload byte, [ff], is not
    UTF-8. *)
Definition garbled_from_1 : BridgeServer :=
  set_rbuf 1%nat [x01; x00; x00; x00; x01; xff] three_clients.

(** A network on which every send returns. *)
Definition net_ok : list send_event -> sock -> bytes -> send_result :=
  fun _ _ _ => Sent.

(** A network on which sends to peer 2 fail. *)
Definition net_2_down : list send_event -> sock -> bytes -> send_result :=
  fun _ c _ => if Nat.eqb c 2 then SendFailed else Sent.

(* ================================================================== *)
(** ** The rest of the event loop *)

(** Texts delivered ahead of a later result. *)
Definition prepend_texts (ts : list str)
           (later : option (list str * conn_status)) :=
  match later with
  | Some (ts', s) => Some (ts ++ ts', s)
  | None => None
  end.

(** The registry and the selector know the same connections, each once. *)
Definition registry_consistent (st : BridgeServer) : Prop :=
  NoDup (clients st) /\
  forall c, In c (clients st) <-> In c (selector st).

(** No registered connection has been closed. *)
Definition clients_open (st : BridgeServer) : Prop :=
  forall c, In c (clients st) -> ~ In c (closed st).


Section EventLoop.
Variable net : list send_event -> sock -> bytes -> send_result.



(** Successive readable events on one connection, each with data. *)
Fixpoint handle_chunks (s : sock) (chunks : list bytes) : M unit :=
  match chunks with
  | [] => ret tt
  | chunk :: rest =>
      _handle_client net s (RecvData chunk) ;; handle_chunks s rest
  end.

End EventLoop.

(** A started server: the [BridgeServer] fields above, the stop event, the
    listening socket ([self.server]) and whether the selector is open. *)
Record Running := Run {
  srv : BridgeServer;
  stop_set : bool;
  listening : option sock;
  sel_open : bool
}.

(** [shutdown()]: set the stop event, close the selector, close every
    client socket and clear the registry, close the listening socket. *)
Definition shutdown (p : Running) : Running :=
  let st := srv p in
  let closed_clients :=
    fold_left (fun acc s => s :: acc) (clients st) (closed st) in
  Run (Server [] (rbuf st) (to_broadcast st) (_last_polled st)
              (_last_sent_from_pc st) []
              match listening p with
              | Some l => l :: closed_clients
              | None => closed_clients
              end
              (wire st) (clip_writes st))
      true None false.

(* ================================================================== *)
(** ** Clipboard access: the command-line tools *)

Module ClipboardPort.

Inductive tool := wl_paste | wl_copy | xclip | xsel.

(** How [subprocess.run] ends: a completed process with its return code and
    captured output, or an exception (timeout, failure to start, output
    that is not text). *)
Inductive run_result :=
| Completed (returncode : Z) (stdout : str)
| RunRaised.

(** The machine the server runs on: which tools [shutil.which] finds, how a
    reader run ends, and whether a writer run given the text returns
    ([true]) or raises ([false]). *)
Record host := Host {
  which : tool -> bool;
  run_reader : tool -> run_result;
  run_writer : tool -> str -> bool
}.

(** The [for name, args, err_msg in tools] loop of [read_clipboard_text]. *)
Fixpoint read_with (h : host) (tools : list tool) : bool * option str :=
  match tools with
  | [] => (false, None)
  | t :: rest =>
      if negb (which h t) then read_with h rest
      else
        match run_reader h t with
        | Completed rc out =>
            if rc =? 0 then (true, Some out) else read_with h rest
        | RunRaised => (false, None)
        end
  end.

Definition readers : list tool := [wl_paste; xclip; xsel].

(** [read_clipboard_text(timeout)] *)
Definition read_clipboard_text (h : host) : bool * option str :=
  read_with h readers.

(** The loop of [write_clipboard_text]. *)
Fixpoint write_with (h : host) (tools : list tool) (text : str) : bool :=
  match tools with
  | [] => false
  | t :: rest =>
      if negb (which h t) then write_with h rest text
      else if run_writer h t text then true
      else write_with h rest text
  end.

Definition writers : list tool := [wl_copy; xclip; xsel].

(** [write_clipboard_text(text)] *)
Definition write_clipboard_text (h : host) (text : str) : bool :=
  write_with h writers text.

(** A reader the loop passes over: not installed, or it exited with a
    non-zero status. *)
Definition passed_over (h : host) (t : tool) : Prop :=
  which h t = false \/
  exists rc out, rc <> 0 /\ run_reader h t = Completed rc out.

End ClipboardPort.

(** ** More sample inputs *)

(** The frame of ["hello"]. *)
Definition hello_frame : bytes :=
  x01 :: x00 :: x00 :: x00 :: x05 :: hello_utf8.

(** Three peers connected, two frames waiting in the queue. *)
Definition two_queued : BridgeServer :=
  set_queue [hello_frame; empty_frame] three_clients.

(** A machine on which only xclip is installed; it prints ["hello"] and
    accepts any text. *)
Definition xclip_only : ClipboardPort.host :=
  ClipboardPort.Host
    (fun t => match t with ClipboardPort.xclip => true | _ => false end)
    (fun _ => ClipboardPort.Completed 0 hello)
    (fun _ _ => true).

(* ================================================================== *)
(** * Proofs *)
(** ** Bytes and the UTF-8 codec *)

Lemma byte_to_Z_range b : 0 <= byte_to_Z b < 256.
Proof.
  unfold byte_to_Z. pose proof (Byte.to_N_bounded b). lia.
Qed.

Lemma byte_to_of_Z z : 0 <= z < 256 -> byte_to_Z (byte_of_Z z) = z.
Proof.
  intros Hz. unfold byte_to_Z, byte_of_Z.
  destruct (Byte.of_N (Z.to_N z)) as [b|] eqn:E.
  - apply Byte.to_of_N in E. rewrite E. lia.
  - apply Byte.of_N_None_iff in E. lia.
Qed.

Lemma byte_of_to_Z b : byte_of_Z (byte_to_Z b) = b.
Proof.
  unfold byte_to_Z, byte_of_Z. rewrite N2Z.id, Byte.of_to_N. reflexivity.
Qed.

Ltac zbool :=
  repeat match goal with
    | |- context [?a <? ?b] => destruct (Z.ltb_spec a b); try (exfalso; Z.div_mod_to_equations; lia)
    | |- context [?a <=? ?b] => destruct (Z.leb_spec a b); try (exfalso; Z.div_mod_to_equations; lia)
    end.

Local Opaque Z.add Z.mul Z.sub Z.div Z.modulo.
Lemma utf8_decode_encode_char c bs rest :
  utf8_encode_char c = Some bs ->
  utf8_decode (bs ++ rest) = option_map (cons c) (utf8_decode rest).
Proof.
  unfold utf8_encode_char, is_surrogate.
  destruct (Z.ltb_spec c 0); [discriminate|].
  destruct (Z.ltb_spec c 0x80).
  { intros [= <-]. cbn [app utf8_decode].
    rewrite byte_to_of_Z by lia. zbool. reflexivity. }
  destruct (Z.ltb_spec c 0x800).
  { intros [= <-]. cbn [app utf8_decode]. unfold is_cont, cont_bits.
    rewrite !byte_to_of_Z by (Z.div_mod_to_equations; lia).
    zbool. cbn [andb]. 
    replace ((192 + c / 64 - 192) * 64 + (128 + c mod 64 - 128)) with c by (Z.div_mod_to_equations; lia).
    reflexivity. }
  destruct (Z.ltb_spec c 0x10000).
  { destruct (Z.leb_spec 0xD800 c); destruct (Z.leb_spec c 0xDFFF); cbn [andb];
      try discriminate; 
    (intros [= <-]; cbn [app utf8_decode]; unfold is_cont, cont_bits, is_surrogate;
    rewrite !byte_to_of_Z by (Z.div_mod_to_equations; lia);
    replace ((224 + c / 4096 - 224) * 4096 + (128 + (c / 64) mod 64 - 128) * 64 + (128 + c mod 64 - 128)) with c by (Z.div_mod_to_equations; lia);
    zbool; reflexivity). }
  destruct (Z.ltb_spec c 0x110000); [|discriminate].
  intros [= <-]; cbn [app utf8_decode]; unfold is_cont, cont_bits.
  rewrite !byte_to_of_Z by (Z.div_mod_to_equations; lia).
  replace ((240 + c / 262144 - 240) * 262144 + (128 + (c / 4096) mod 64 - 128) * 4096 + (128 + (c / 64) mod 64 - 128) * 64 + (128 + c mod 64 - 128)) with c by (Z.div_mod_to_equations; lia).
  zbool; reflexivity.
Qed.
Local Transparent Z.add Z.mul Z.sub Z.div Z.modulo.

(** Exactly the Unicode scalar values can be encoded. *)
Lemma utf8_encode_char_scalar c :
  utf8_encode_char c <> None <-> is_scalar c = true.
Proof.
  unfold utf8_encode_char, is_scalar, is_surrogate.
  destruct (Z.ltb_spec c 0); destruct (Z.leb_spec 0 c); try lia;
    cbn [andb]; [split; [congruence|discriminate]|].
  destruct (Z.ltb_spec c 0x80); destruct (Z.ltb_spec c 0x800);
    destruct (Z.ltb_spec c 0x10000); destruct (Z.ltb_spec c 0x110000);
    destruct (Z.leb_spec 0xD800 c); destruct (Z.leb_spec c 0xDFFF);
    try lia; cbn [andb negb]; split; congruence.
Qed.

Lemma utf8_decode_encode t : forall data,
  utf8_encode t = Some data -> utf8_decode data = Some t.
Proof.
  induction t as [|c t IH]; intros data; cbn [utf8_encode].
  - intros [= <-]. reflexivity.
  - destruct (utf8_encode_char c) as [bs|] eqn:Ec; [|discriminate].
    destruct (utf8_encode t) as [r|] eqn:Et; [|discriminate].
    intros [= <-]. rewrite (utf8_decode_encode_char _ _ _ Ec), (IH _ eq_refl).
    reflexivity.
Qed.


(** ** Frame headers *)

Lemma len_app {A} (a b : list A) : len (a ++ b) = len a + len b.
Proof. unfold len. rewrite length_app. lia. Qed.

Lemma len_nonneg {A} (a : list A) : 0 <= len a.
Proof. unfold len. lia. Qed.

Lemma unpack_be32_range b1 b2 b3 b4 :
  0 <= unpack_be32 b1 b2 b3 b4 < 4294967296.
Proof.
  unfold unpack_be32.
  pose proof (byte_to_Z_range b1). pose proof (byte_to_Z_range b2).
  pose proof (byte_to_Z_range b3). pose proof (byte_to_Z_range b4). lia.
Qed.

Lemma pack_be32_ok n :
  0 <= n < 4294967296 ->
  exists b1 b2 b3 b4,
    pack_be32 n = Ok [b1; b2; b3; b4] /\ unpack_be32 b1 b2 b3 b4 = n.
Proof.
  intros Hn. unfold pack_be32.
  destruct (Z.leb_spec 0 n); [|lia]. destruct (Z.ltb_spec n 4294967296); [|lia].
  cbn [andb]. do 4 eexists. split; [reflexivity|].
  unfold unpack_be32.
  rewrite !byte_to_of_Z by (Z.div_mod_to_equations; lia).
  Z.div_mod_to_equations; lia.
Qed.

Lemma parse_head_complete b0 b1 b2 b3 b4 payload rest :
  byte_to_Z b0 = MSG_TEXT ->
  unpack_be32 b1 b2 b3 b4 = len payload ->
  len payload <= MAX_BYTES ->
  parse_head (b0 :: b1 :: b2 :: b3 :: b4 :: payload ++ rest)
  = Complete payload rest.
Proof.
  intros H0 Hl Hm. unfold parse_head. rewrite H0, Z.eqb_refl. cbn [negb].
  rewrite Hl. pose proof (len_nonneg payload).
  destruct (Z.ltb_spec (len payload) 0); [lia|].
  destruct (Z.gtb_spec (len payload) MAX_BYTES); [lia|]. cbn [orb].
  change (len (b0 :: b1 :: b2 :: b3 :: b4 :: payload ++ rest))
    with (len ([b0; b1; b2; b3; b4] ++ payload ++ rest)).
  rewrite !len_app. change (len [b0; b1; b2; b3; b4]) with 5.
  pose proof (len_nonneg rest).
  destruct (Z.ltb_spec (5 + (len payload + len rest)) (5 + len payload)); [lia|].
  unfold len. rewrite Nat2Z.id, firstn_app, skipn_app, Nat.sub_diag.
  rewrite firstn_all, skipn_all. cbn. rewrite app_nil_r. reflexivity.
Qed.

Lemma parse_head_complete_inv buf payload rest :
  parse_head buf = Complete payload rest ->
  exists b0 b1 b2 b3 b4,
    buf = b0 :: b1 :: b2 :: b3 :: b4 :: payload ++ rest /\
    byte_to_Z b0 = MSG_TEXT /\
    unpack_be32 b1 b2 b3 b4 = len payload /\
    len payload <= MAX_BYTES.
Proof.
  unfold parse_head.
  destruct buf as [|b0 [|b1 [|b2 [|b3 [|b4 body]]]]]; try discriminate.
  destruct (Z.eqb_spec (byte_to_Z b0) MSG_TEXT) as [E0|]; [|discriminate].
  cbn [negb]. set (n := unpack_be32 b1 b2 b3 b4).
  destruct (Z.ltb_spec n 0); [discriminate|].
  destruct (Z.gtb_spec n MAX_BYTES); [discriminate|]. cbn [orb].
  change (len (b0 :: b1 :: b2 :: b3 :: b4 :: body))
    with (len ([b0; b1; b2; b3; b4] ++ body)).
  rewrite len_app. change (len [b0; b1; b2; b3; b4]) with 5.
  destruct (Z.ltb_spec (5 + len body) (5 + n)); [discriminate|].
  intros [= <- <-]. exists b0, b1, b2, b3, b4.
  rewrite firstn_skipn. repeat split; auto.
  - fold n. unfold len in *. rewrite length_firstn. lia.
  - unfold len in *. rewrite length_firstn. lia.
Qed.

Lemma parse_head_complete_shorter buf payload rest :
  parse_head buf = Complete payload rest ->
  (length rest + 5 <= length buf)%nat.
Proof.
  intros H. apply parse_head_complete_inv in H.
  destruct H as (b0 & b1 & b2 & b3 & b4 & -> & _).
  cbn [length]. rewrite length_app. lia.
Qed.

(** ** The decoder loop: fuel, totality, incremental feeding *)

Lemma decode_loop_fuel f1 : forall f2 buf,
  (length buf < f1)%nat -> (length buf < f2)%nat ->
  decode_loop f1 buf = decode_loop f2 buf.
Proof.
  induction f1 as [|f1 IH]; intros f2 buf H1 H2; [lia|].
  destruct f2 as [|f2]; [lia|]. cbn [decode_loop].
  destruct (parse_head buf) eqn:E; try reflexivity.
  apply parse_head_complete_shorter in E.
  rewrite (IH f2 rest) by lia. reflexivity.
Qed.

Lemma decode_frames_unfold buf :
  decode_frames buf =
  match parse_head buf with
  | NeedMore => Some ([], Open buf)
  | BadFrameType => Some ([], Dropped BadType)
  | BadFrameLength n => Some ([], Dropped (BadLength n))
  | Complete payload rest => deliver payload (decode_frames rest)
  end.
Proof.
  unfold decode_frames. cbn [decode_loop].
  destruct (parse_head buf) eqn:E; try reflexivity.
  apply parse_head_complete_shorter in E.
  rewrite (decode_loop_fuel (length buf) (S (length rest)) rest) by lia.
  reflexivity.
Qed.

Lemma decode_frames_total_aux n : forall buf,
  (length buf < n)%nat -> exists ts s, decode_frames buf = Some (ts, s).
Proof.
  induction n as [|n IH]; intros buf Hn; [lia|].
  rewrite decode_frames_unfold.
  destruct (parse_head buf) eqn:E; try (do 2 eexists; reflexivity).
  apply parse_head_complete_shorter in E.
  destruct (IH rest) as (ts & s & ->); [lia|]. unfold deliver.
  destruct (utf8_decode payload); do 2 eexists; reflexivity.
Qed.

Lemma decode_frames_total buf : exists ts s, decode_frames buf = Some (ts, s).
Proof. apply (decode_frames_total_aux (S (length buf))). lia. Qed.

Lemma parse_head_app_bad_type b c :
  parse_head b = BadFrameType -> parse_head (b ++ c) = BadFrameType.
Proof.
  destruct b as [|b0 [|b1 [|b2 [|b3 [|b4 body]]]]]; try discriminate.
  cbn [app]. unfold parse_head.
  destruct (negb (byte_to_Z b0 =? MSG_TEXT)); [reflexivity|].
  destruct ((unpack_be32 b1 b2 b3 b4 <? 0) || (unpack_be32 b1 b2 b3 b4 >? MAX_BYTES));
    [discriminate|].
  destruct (len (b0 :: b1 :: b2 :: b3 :: b4 :: body) <? 5 + unpack_be32 b1 b2 b3 b4);
    discriminate.
Qed.

Lemma parse_head_app_bad_length b c n :
  parse_head b = BadFrameLength n -> parse_head (b ++ c) = BadFrameLength n.
Proof.
  destruct b as [|b0 [|b1 [|b2 [|b3 [|b4 body]]]]]; try discriminate.
  cbn [app]. unfold parse_head.
  destruct (negb (byte_to_Z b0 =? MSG_TEXT)); [discriminate|].
  destruct ((unpack_be32 b1 b2 b3 b4 <? 0) || (unpack_be32 b1 b2 b3 b4 >? MAX_BYTES));
    [auto|].
  destruct (len (b0 :: b1 :: b2 :: b3 :: b4 :: body) <? 5 + unpack_be32 b1 b2 b3 b4);
    discriminate.
Qed.

Lemma parse_head_app_complete b c payload rest :
  parse_head b = Complete payload rest ->
  parse_head (b ++ c) = Complete payload (rest ++ c).
Proof.
  intros H. apply parse_head_complete_inv in H.
  destruct H as (b0 & b1 & b2 & b3 & b4 & -> & H0 & Hl & Hm).
  cbn [app]. rewrite <- app_assoc. apply parse_head_complete; assumption.
Qed.

Lemma feed_deliver payload r c :
  feed (deliver payload r) c = deliver payload (feed r c).
Proof.
  unfold deliver, feed.
  destruct r as [[ts [buf|why]]|]; [| |reflexivity];
    destruct (utf8_decode payload) as [text|];
    try destruct (decode_frames (buf ++ c)) as [[ts' s']|]; reflexivity.
Qed.

Lemma decode_frames_app_aux n : forall b c,
  (length b < n)%nat -> feed (decode_frames b) c = decode_frames (b ++ c).
Proof.
  induction n as [|n IH]; intros b c Hn; [lia|].
  rewrite (decode_frames_unfold b).
  destruct (parse_head b) eqn:E.
  - cbn [feed app]. destruct (decode_frames (b ++ c)) as [[ts s]|]; reflexivity.
  - rewrite decode_frames_unfold, (parse_head_app_bad_type _ c E). reflexivity.
  - rewrite decode_frames_unfold, (parse_head_app_bad_length _ c _ E). reflexivity.
  - rewrite (decode_frames_unfold (b ++ c)), (parse_head_app_complete _ c _ _ E).
    rewrite feed_deliver. apply parse_head_complete_shorter in E.
    rewrite IH by lia. reflexivity.
Qed.

Lemma decode_frames_app b c :
  feed (decode_frames b) c = decode_frames (b ++ c).
Proof. apply (decode_frames_app_aux (S (length b))). lia. Qed.

Lemma fold_feed_decode chunks : forall b,
  fold_left feed chunks (decode_frames b) = decode_frames (b ++ concat chunks).
Proof.
  induction chunks as [|c chunks IH]; intros b; cbn [fold_left concat].
  - rewrite app_nil_r. reflexivity.
  - rewrite decode_frames_app, IH, app_assoc. reflexivity.
Qed.

Lemma fresh_conn_decode : fresh_conn = decode_frames [].
Proof. reflexivity. Qed.

Lemma feed_chunks_concat chunks :
  feed_chunks chunks = decode_frames (concat chunks).
Proof.
  unfold feed_chunks. rewrite fresh_conn_decode, fold_feed_decode. reflexivity.
Qed.

Lemma concat_singletons {A} (l : list A) : concat (map (fun b => [b]) l) = l.
Proof. induction l as [|a l IH]; cbn; [|rewrite IH]; reflexivity. Qed.

(** C4. Feeding a byte sequence to the decoder of a fresh connection one
    byte at a time, decoding after each byte, ends with the same texts
    delivered, the same bytes left in the buffer and the same drop reason
    (bad type, bad length) as feeding the sequence in one piece; and the
    decoder does come to an end on it. *)
Theorem bytewise_equals_batch (bs : bytes) :
  feed_bytewise bs = feed_at_once bs /\
  exists texts status, feed_at_once bs = Some (texts, status).
Proof.
  unfold feed_bytewise, feed_at_once.
  rewrite feed_chunks_concat, concat_singletons, fresh_conn_decode, decode_frames_app.
  split; [reflexivity|]. apply decode_frames_total.
Qed.

(** ** The watcher *)

Lemma str_eqb_eq a : forall b, str_eqb a b = true <-> a = b.
Proof.
  induction a as [|x a IH]; intros [|y b]; cbn [str_eqb];
    try (split; [discriminate|discriminate]); try tauto.
  rewrite andb_true_iff, Z.eqb_eq, IH. split.
  - intros [-> ->]. reflexivity.
  - intros [= -> ->]. auto.
Qed.

Lemma str_eqb_refl a : str_eqb a a = true.
Proof. apply str_eqb_eq. reflexivity. Qed.

Lemma differs_false txt field : differs txt field = false <-> field = Some txt.
Proof.
  destruct field as [s|]; cbn [differs].
  - rewrite negb_false_iff, str_eqb_eq. split; [intros ->|intros [= ->]]; reflexivity.
  - split; discriminate.
Qed.

Lemma differs_true txt field : differs txt field = true <-> field <> Some txt.
Proof.
  rewrite <- differs_false. destruct (differs txt field); split; congruence.
Qed.

Lemma nonempty_true (txt : str) : negb (str_eqb txt []) = true <-> txt <> [].
Proof.
  rewrite negb_true_iff. rewrite <- (str_eqb_eq txt []).
  destruct (str_eqb txt []); split; congruence.
Qed.

Lemma utf8_encode_ascii_repeat n :
  utf8_encode (repeat 97 n) = Some (repeat (byte_of_Z 97) n).
Proof.
  induction n as [|n IH]; [reflexivity|].
  cbn [repeat utf8_encode]. rewrite IH. reflexivity.
Qed.

Lemma frame_text_big : frame_text big_text = Raise ValueError_payload_too_large.
Proof.
  unfold frame_text, big_text. rewrite utf8_encode_ascii_repeat.
  unfold len. rewrite repeat_length, Z2Nat.id by lia. reflexivity.
Qed.

Lemma big_text_nonempty : big_text <> [].
Proof.
  intros E. apply (f_equal (@length _)) in E. unfold big_text in E.
  rewrite repeat_length in E. cbn [length] in E. lia.
Qed.

(** What [queue_from_pc] does, by the outcome of [frame_text]. *)
Lemma queue_from_pc_ok text frame st :
  frame_text text = Ok frame ->
  queue_from_pc text st =
  (set_queue (to_broadcast st ++ [frame]) (set_last_sent text st), Ok tt).
Proof.
  intros E. unfold queue_from_pc, bind, modify, lift, encoded_length. rewrite E.
  unfold frame_text in E. destruct (utf8_encode text); [|discriminate].
  reflexivity.
Qed.

Lemma queue_from_pc_raise text e st :
  frame_text text = Raise e ->
  queue_from_pc text st = (set_last_sent text st, Raise e).
Proof.
  intros E. unfold queue_from_pc, bind, modify, lift. rewrite E. reflexivity.
Qed.

Lemma frame_text_ok_iff t :
  (exists frame, frame_text t = Ok frame) <->
  (exists data, utf8_encode t = Some data /\ len data <= MAX_BYTES).
Proof.
  unfold frame_text. destruct (utf8_encode t) as [data|].
  - destruct (Z.gtb_spec (len data) MAX_BYTES) as [Hgt|Hle].
    + split; [intros [f Hf]; discriminate|intros (d & [= <-] & Hd); lia].
    + pose proof (len_nonneg data) as Hn.
      destruct (pack_be32_ok (len data)) as (b1 & b2 & b3 & b4 & -> & _).
      { unfold MAX_BYTES in Hle. lia. }
      split; [intros _; eauto|intros _; eauto].
  - split; [intros [f Hf]; discriminate|intros (d & Hd & _); discriminate].
Qed.

(** ** Broadcast *)

Section NetworkFacts.
Variable net : list send_event -> sock -> bytes -> send_result.

Lemma broadcast_to_spec payload exclude targets : forall st,
  broadcast_to net targets payload exclude st =
  (let evs := broadcast_events net (wire st) targets payload exclude in
   Server (drop_all (failed_socks evs) (clients st)) (rbuf st)
          (to_broadcast st) (_last_polled st) (_last_sent_from_pc st)
          (drop_all (failed_socks evs) (selector st))
          (rev (failed_socks evs) ++ closed st)
          (wire st ++ evs) (clip_writes st),
   Ok tt).
Proof.
  induction targets as [|c rest IH]; intros st; cbn [broadcast_to broadcast_events].
  - cbn. rewrite app_nil_r. destruct st; reflexivity.
  - destruct (is_excluded c exclude); [apply IH|].
    unfold bind, sendall.
    destruct (net (wire st) c payload) eqn:En;
      unfold ret, _drop_client, modify; rewrite IH; cbn -[broadcast_events];
      unfold failed_socks; cbn [filter send_failed ev_result map rev drop_all fold_left];
      rewrite <- ?app_assoc; reflexivity.
Qed.
End NetworkFacts.

Lemma events_of_cons c e evs :
  events_of c (e :: evs) =
  if Nat.eqb (ev_sock e) c then e :: events_of c evs else events_of c evs.
Proof. reflexivity. Qed.

Lemma in_remove_sock c s l : In c (remove_sock s l) <-> In c l /\ c <> s.
Proof.
  unfold remove_sock. rewrite filter_In, negb_true_iff, Nat.eqb_neq. tauto.
Qed.

Lemma in_drop_all c failed : forall l,
  In c (drop_all failed l) <-> In c l /\ ~ In c failed.
Proof.
  induction failed as [|s failed IH]; intros l; cbn [drop_all fold_left In].
  - tauto.
  - fold (drop_all failed (remove_sock s l)). rewrite IH, in_remove_sock.
    intuition congruence.
Qed.

Lemma in_failed_socks c evs :
  In c (failed_socks evs) <->
  exists e, In e (events_of c evs) /\ send_failed e = true.
Proof.
  unfold failed_socks, events_of. rewrite in_map_iff. split.
  - intros (e & <- & He). apply filter_In in He. exists e.
    rewrite filter_In, Nat.eqb_refl. tauto.
  - intros (e & He & Hf). apply filter_In in He. destruct He as [He Hc].
    apply Nat.eqb_eq in Hc. exists e. rewrite filter_In. tauto.
Qed.

Section EventFacts.
Variable net : list send_event -> sock -> bytes -> send_result.

Lemma broadcast_events_socks payload exclude targets : forall w,
  map ev_sock (broadcast_events net w targets payload exclude)
  = filter (fun c => negb (is_excluded c exclude)) targets.
Proof.
  induction targets as [|c rest IH]; intros w; cbn [broadcast_events filter];
    [reflexivity|].
  destruct (is_excluded c exclude); cbn [negb map ev_sock]; rewrite IH; reflexivity.
Qed.

Lemma broadcast_events_payload payload exclude targets : forall w,
  Forall (fun e => ev_payload e = payload)
         (broadcast_events net w targets payload exclude).
Proof.
  induction targets as [|c rest IH]; intros w; cbn [broadcast_events];
    [constructor|].
  destruct (is_excluded c exclude); [apply IH|]. constructor; [reflexivity|apply IH].
Qed.

Lemma broadcast_events_results payload exclude targets : forall w e,
  In e (broadcast_events net w targets payload exclude) ->
  exists w', ev_result e = net w' (ev_sock e) payload.
Proof.
  induction targets as [|c rest IH]; intros w e; cbn [broadcast_events];
    [intros []|].
  destruct (is_excluded c exclude); [apply IH|].
  intros [<-|H]; [exists w; reflexivity|eapply IH; eassumption].
Qed.

Lemma events_of_absent c payload exclude targets : forall w,
  ~ In c targets \/ is_excluded c exclude = true ->
  events_of c (broadcast_events net w targets payload exclude) = [].
Proof.
  induction targets as [|t rest IH]; intros w H; cbn [broadcast_events];
    [reflexivity|].
  destruct (is_excluded t exclude) eqn:Et.
  - apply IH. cbn [In] in H. tauto.
  - rewrite events_of_cons. cbn [ev_sock].
    destruct (Nat.eqb_spec t c) as [->|Hne].
    + destruct H as [H|H]; [cbn [In] in H; tauto|congruence].
    + apply IH. cbn [In] in H. tauto.
Qed.

Lemma events_of_once c payload exclude targets : forall w,
  NoDup targets -> In c targets -> is_excluded c exclude = false ->
  exists r, events_of c (broadcast_events net w targets payload exclude)
            = [SendEvent c payload r].
Proof.
  induction targets as [|t rest IH]; intros w Hnd Hin Hex; [destruct Hin|].
  inversion Hnd as [|? ? Hnotin Hnd']; subst. cbn [broadcast_events].
  destruct (Nat.eq_dec t c) as [->|Hne].
  - rewrite Hex, events_of_cons. cbn [ev_sock]. rewrite Nat.eqb_refl.
    rewrite events_of_absent by tauto. eauto.
  - destruct Hin as [|Hin]; [congruence|].
    destruct (is_excluded t exclude); [apply IH; assumption|].
    rewrite events_of_cons. cbn [ev_sock]. apply Nat.eqb_neq in Hne.
    rewrite Hne. apply IH; assumption.
Qed.

(** C6. [_broadcast] takes the key list of the registry as it is on entry
    and calls [sendall] with the whole payload exactly once on every
    connection in it except the excluded one.  A connection whose send
    returns stays registered; one whose send would block or fails is
    removed from the registry and the selector and closed, and nothing else
    is: the loop goes on, and every other connection still gets its one
    send. *)
Theorem broadcast_fault_isolation payload exclude st :
  NoDup (clients st) ->
  exists evs st',
    _broadcast net payload exclude st = (st', Ok tt) /\
    wire st' = wire st ++ evs /\
    map ev_sock evs = filter (fun c => negb (is_excluded c exclude)) (clients st) /\
    (forall c, In c (clients st) -> is_excluded c exclude = false ->
       exists r,
         events_of c evs = [SendEvent c payload r] /\
         (r = Sent -> In c (clients st')) /\
         (r <> Sent ->
          ~ In c (clients st') /\ ~ In c (selector st') /\ In c (closed st'))) /\
    (forall c, is_excluded c exclude = true ->
       events_of c evs = [] /\ (In c (clients st) -> In c (clients st'))) /\
    (forall c, In c (clients st') -> In c (clients st)) /\
    (forall c, In c (closed st') ->
       In c (closed st) \/
       exists e, In e evs /\ ev_sock e = c /\ ev_result e <> Sent).
Proof.
  intros Hnd. unfold _broadcast. rewrite broadcast_to_spec. cbv zeta.
  set (evs := broadcast_events net (wire st) (clients st) payload exclude).
  eexists evs, _. split; [reflexivity|]. cbn [wire clients selector closed].
  split; [reflexivity|]. split; [apply broadcast_events_socks|].
  split; [|split; [|split]].
  - intros c Hin Hex.
    destruct (events_of_once c payload exclude (clients st) (wire st) Hnd Hin Hex)
      as [r Hr]. fold evs in Hr. exists r. split; [exact Hr|].
    assert (Hf : In c (failed_socks evs) <-> r <> Sent).
    { rewrite in_failed_socks, Hr. split.
      - intros (e & [<-|[]] & He). intros ->. discriminate.
      - intros Hne. eexists. split; [left; reflexivity|].
        destruct r; [congruence|reflexivity|reflexivity]. }
    split.
    + intros ->. apply in_drop_all. split; [assumption|]. rewrite Hf. congruence.
    + intros Hne. rewrite !in_drop_all. repeat split; try tauto.
      apply in_or_app. left. apply -> in_rev. tauto.
  - intros c Hex. assert (He : events_of c evs = []) by (apply events_of_absent; tauto).
    split; [exact He|]. intros Hin. apply in_drop_all. split; [assumption|].
    rewrite in_failed_socks, He. intros (e & [] & _).
  - intros c Hc. apply in_drop_all in Hc. tauto.
  - intros c Hc. apply in_app_or in Hc. destruct Hc as [Hc|Hc]; [|tauto].
    right. apply in_rev in Hc. unfold failed_socks in Hc.
    apply in_map_iff in Hc. destruct Hc as (e & <- & He).
    apply filter_In in He. destruct He as [He Hf]. exists e.
    repeat split; [assumption|]. unfold send_failed in Hf.
    destruct (ev_result e); congruence.
Qed.
End EventFacts.

Section HandlerFacts.
Variable net : list send_event -> sock -> bytes -> send_result.

Lemma on_text_unfold sender text st :
  _on_text_from_client net sender text st =
  match frame_text text with
  | Ok payload => _broadcast net payload (Some sender) (mark_applied text st)
  | Raise e => (mark_applied text st, Raise e)
  end.
Proof.
  unfold _on_text_from_client, bind, modify, write_clipboard_text, modify,
    encoded_length, lift, frame_text.
  cbn [set_last_sent clients rbuf to_broadcast _last_polled _last_sent_from_pc
       selector closed wire clip_writes].
  destruct (utf8_encode text) as [data|]; [|reflexivity].
  unfold ret. destruct (len data >? MAX_BYTES); [reflexivity|].
  destruct (pack_be32 (len data)); reflexivity.
Qed.

Lemma on_text_fields sender text st :
  let st' := fst (_on_text_from_client net sender text st) in
  rbuf st' = rbuf st /\
  to_broadcast st' = to_broadcast st /\
  _last_polled st' = _last_polled st /\
  _last_sent_from_pc st' = Some text /\
  clip_writes st' = clip_writes st ++ [ClipWrite text (Some text)].
Proof.
  cbv zeta. rewrite on_text_unfold.
  destruct (frame_text text) as [payload|e].
  - unfold _broadcast. rewrite broadcast_to_spec. cbn. tauto.
  - cbn. tauto.
Qed.

(** C1. When the event loop handles a frame with text [X], the clipboard
    writer is called with [_last_sent_from_pc] already equal to [X], and the
    field still holds [X] when the handler is done.  From then on, in any
    state where the field is still [X], a watcher tick that reads [X] puts
    nothing on the queue, leaves the field alone and does not raise. *)
Theorem peer_text_not_rebroadcast sender X st :
  let st1 := fst (_on_text_from_client net sender X st) in
  clip_writes st1 = clip_writes st ++ [ClipWrite X (Some X)] /\
  _last_sent_from_pc st1 = Some X /\
  to_broadcast st1 = to_broadcast st /\
  forall st2,
    _last_sent_from_pc st2 = Some X ->
    snd (watch_tick (true, Some X) st2) = Ok tt /\
    to_broadcast (fst (watch_tick (true, Some X) st2)) = to_broadcast st2 /\
    _last_sent_from_pc (fst (watch_tick (true, Some X) st2)) = Some X.
Proof.
  cbv zeta. pose proof (on_text_fields sender X st) as H. cbv zeta in H.
  destruct H as (_ & Hq & _ & Hs & Hw). repeat split; try assumption.
  all: intros; unfold watch_tick;
    destruct (differs X (_last_polled st2)); [|cbn; auto];
    replace (differs X (_last_sent_from_pc st2)) with false
      by (symmetry; apply differs_false; assumption);
    cbn; auto.
Qed.
End HandlerFacts.

(** C2, amended.  On a watcher tick whose read succeeds with text [t], a
    frame is put on the queue if and only if [t] differs from
    [_last_polled] (or that is unset), differs from [_last_sent_from_pc],
    is not empty, and has a UTF-8 encoding of at most [MAX_BYTES] bytes.
    When one is put, it is the frame of [t], and [_last_sent_from_pc] is
    [t] afterwards; otherwise the queue is as it was. *)
Theorem watch_tick_enqueue_iff st t :
  ((exists frame,
      to_broadcast (fst (watch_tick (true, Some t) st)) = to_broadcast st ++ [frame])
   <->
   (_last_polled st <> Some t /\ _last_sent_from_pc st <> Some t /\ t <> [] /\
    exists data, utf8_encode t = Some data /\ len data <= MAX_BYTES)) /\
  (forall frame,
      to_broadcast (fst (watch_tick (true, Some t) st)) = to_broadcast st ++ [frame] ->
      frame_text t = Ok frame /\
      _last_sent_from_pc (fst (watch_tick (true, Some t) st)) = Some t) /\
  ((~ exists frame,
      to_broadcast (fst (watch_tick (true, Some t) st)) = to_broadcast st ++ [frame]) ->
   to_broadcast (fst (watch_tick (true, Some t) st)) = to_broadcast st).
Proof.
  assert (Hno : forall (q : list bytes) f, q <> q ++ [f]).
  { intros q f E. apply (f_equal (@length _)) in E. rewrite length_app in E.
    cbn in E. lia. }
  unfold watch_tick.
  destruct (differs t (_last_polled st)) eqn:Ep.
  2:{ apply differs_false in Ep. cbn. split; [|split].
      - split; [intros [f Hf]; elim (Hno _ _ Hf)|tauto].
      - intros f Hf. elim (Hno _ _ Hf).
      - reflexivity. }
  apply differs_true in Ep.
  destruct (differs t (_last_sent_from_pc st)) eqn:Es.
  2:{ apply differs_false in Es. cbn. split; [|split].
      - split; [intros [f Hf]; elim (Hno _ _ Hf)|tauto].
      - intros f Hf. elim (Hno _ _ Hf).
      - reflexivity. }
  apply differs_true in Es.
  destruct (negb (str_eqb t [])) eqn:En.
  2:{ assert (t = []) by (apply str_eqb_eq; destruct (str_eqb t []); [reflexivity|discriminate]).
      cbn. split; [|split].
      - split; [intros [f Hf]; elim (Hno _ _ Hf)|tauto].
      - intros f Hf. elim (Hno _ _ Hf).
      - reflexivity. }
  apply nonempty_true in En. unfold bind.
  destruct (frame_text t) as [frame|e] eqn:Ef.
  - rewrite (queue_from_pc_ok _ _ _ Ef). cbn. split; [|split].
    + split; [intros _|eauto].
      split; [assumption|]. split; [assumption|]. split; [assumption|].
      apply frame_text_ok_iff. eauto.
    + intros f Hf. apply app_inv_head in Hf. injection Hf as <-. auto.
    + intros Hn. elim Hn. eauto.
  - rewrite (queue_from_pc_raise _ _ _ Ef). cbn. split; [|split].
    + split; [intros [f Hf]; elim (Hno _ _ Hf)|].
      intros (_ & _ & _ & Hd). apply frame_text_ok_iff in Hd.
      destruct Hd as [f Hf]. congruence.
    + intros f Hf. elim (Hno _ _ Hf).
    + reflexivity.
Qed.

Lemma watch_tick_raise st t e :
  _last_polled st <> Some t -> _last_sent_from_pc st <> Some t -> t <> [] ->
  frame_text t = Raise e ->
  watch_tick (true, Some t) st = (set_last_sent t st, Raise e).
Proof.
  intros Hp Hs Hn Hf. unfold watch_tick.
  apply differs_true in Hp. apply differs_true in Hs. apply nonempty_true in Hn.
  rewrite Hp, Hs, Hn. unfold bind. rewrite (queue_from_pc_raise _ _ _ Hf).
  reflexivity.
Qed.

Lemma watch_tick_big :
  watch_tick (true, Some big_text) idle_server
  = (set_last_sent big_text idle_server, Raise ValueError_payload_too_large).
Proof.
  apply watch_tick_raise.
  - intros H. discriminate H.
  - intros H. discriminate H.
  - apply big_text_nonempty.
  - apply frame_text_big.
Qed.

(** C2 as stated fails.  On a fresh server the text of 1,048,577 letters
    [a] differs from both fields and is not empty, and yet the tick puts
    nothing on the queue. *)
Lemma watch_tick_oversized_not_enqueued :
  (_last_polled idle_server <> Some big_text /\
   _last_sent_from_pc idle_server <> Some big_text /\
   big_text <> []) /\
  to_broadcast (fst (watch_tick (true, Some big_text) idle_server))
  = to_broadcast idle_server.
Proof.
  split.
  - split; [intros H; discriminate H|].
    split; [intros H; discriminate H|apply big_text_nonempty].
  - rewrite watch_tick_big. reflexivity.
Qed.

(** C8 at the failing input.  On a fresh server a successful read of
    1,048,577 letters [a] ends the tick with [ValueError] out of
    [queue_from_pc]; [_last_polled] is still unset, though
    [_last_sent_from_pc] already holds the text. *)
Theorem watch_tick_oversized_dies :
  snd (watch_tick (true, Some big_text) idle_server)
  = Raise ValueError_payload_too_large /\
  _last_polled (fst (watch_tick (true, Some big_text) idle_server)) = None /\
  _last_sent_from_pc (fst (watch_tick (true, Some big_text) idle_server))
  = Some big_text.
Proof.
  rewrite watch_tick_big. repeat split.
Qed.

(** A tick that returns leaves the text it read in [_last_polled]. *)
Lemma watch_tick_observed st t :
  snd (watch_tick (true, Some t) st) = Ok tt ->
  _last_polled (fst (watch_tick (true, Some t) st)) = Some t.
Proof.
  unfold watch_tick.
  destruct (differs t (_last_polled st)) eqn:Ep.
  2:{ apply differs_false in Ep. cbn. auto. }
  unfold bind.
  destruct (differs t (_last_sent_from_pc st)); [|cbn; auto].
  destruct (negb (str_eqb t [])); [|cbn; auto].
  destruct (frame_text t) as [frame|e] eqn:Ef.
  - rewrite (queue_from_pc_ok _ _ _ Ef). cbn. auto.
  - rewrite (queue_from_pc_raise _ _ _ Ef). cbn. discriminate.
Qed.

Lemma watch_tick_read_failed st txt :
  watch_tick (false, txt) st = (st, Ok tt).
Proof. reflexivity. Qed.

Local Opaque Z.add Z.mul Z.sub Z.div Z.modulo.

(** ** Decoded text encodes back *)

Lemma utf8_decode_step b0 r0 t :
  utf8_decode (b0 :: r0) = Some t ->
  exists c bs rest t',
    b0 :: r0 = bs ++ rest /\ t = c :: t' /\
    utf8_encode_char c = Some bs /\ utf8_decode rest = Some t' /\
    (length rest < length (b0 :: r0))%nat.
Proof.
  cbn [utf8_decode]. pose proof (byte_to_Z_range b0) as R0.
  destruct (Z.ltb_spec (byte_to_Z b0) 0x80).
  { destruct (utf8_decode r0) as [t'|] eqn:E; [|discriminate].
    intros [= <-]. exists (byte_to_Z b0), [b0], r0, t'.
    repeat split; auto. unfold utf8_encode_char.
    destruct (Z.ltb_spec (byte_to_Z b0) 0); [lia|].
    destruct (Z.ltb_spec (byte_to_Z b0) 0x80); [|lia].
    rewrite byte_of_to_Z. reflexivity. }
  destruct (Z.ltb_spec (byte_to_Z b0) 0xC0); [discriminate|].
  destruct (Z.ltb_spec (byte_to_Z b0) 0xE0).
  { destruct r0 as [|b1 r1]; [discriminate|].
    unfold is_cont, cont_bits. pose proof (byte_to_Z_range b1) as R1.
    set (c := (byte_to_Z b0 - 192) * 64 + (byte_to_Z b1 - 128)).
    destruct (Z.leb_spec 128 (byte_to_Z b1)); [|discriminate].
    destruct (Z.ltb_spec (byte_to_Z b1) 192); [|discriminate].
    destruct (Z.leb_spec 128 c); [|discriminate]. cbn [andb].
    destruct (utf8_decode r1) as [t'|] eqn:E; [|discriminate].
    intros [= <-]. exists c, [b0; b1], r1, t'.
    repeat split; auto; [|cbn; lia]. unfold utf8_encode_char.
    destruct (Z.ltb_spec c 0); [lia|].
    destruct (Z.ltb_spec c 0x80); [lia|].
    destruct (Z.ltb_spec c 0x800); [|subst c; lia].
    replace (192 + c / 64) with (byte_to_Z b0) by (subst c; Z.div_mod_to_equations; lia).
    replace (128 + c mod 64) with (byte_to_Z b1) by (subst c; Z.div_mod_to_equations; lia).
    rewrite !byte_of_to_Z. reflexivity. }
  destruct (Z.ltb_spec (byte_to_Z b0) 0xF0).
  { destruct r0 as [|b1 [|b2 r2]]; try discriminate.
    unfold is_cont, cont_bits, is_surrogate.
    pose proof (byte_to_Z_range b1) as R1. pose proof (byte_to_Z_range b2) as R2.
    set (c := (byte_to_Z b0 - 224) * 4096 + (byte_to_Z b1 - 128) * 64
              + (byte_to_Z b2 - 128)).
    destruct (Z.leb_spec 128 (byte_to_Z b1)); [|discriminate].
    destruct (Z.ltb_spec (byte_to_Z b1) 192); [|discriminate].
    destruct (Z.leb_spec 128 (byte_to_Z b2)); [|discriminate].
    destruct (Z.ltb_spec (byte_to_Z b2) 192); [|discriminate].
    destruct (Z.leb_spec 2048 c); [|discriminate]. cbn [andb].
    destruct ((55296 <=? c) && (c <=? 57343)) eqn:Es; [discriminate|]. cbn [negb].
    destruct (utf8_decode r2) as [t'|] eqn:E; [|discriminate].
    intros [= <-]. exists c, [b0; b1; b2], r2, t'.
    repeat split; auto; [|cbn; lia]. unfold utf8_encode_char, is_surrogate.
    rewrite Es.
    destruct (Z.ltb_spec c 0); [lia|].
    destruct (Z.ltb_spec c 0x80); [lia|].
    destruct (Z.ltb_spec c 0x800); [lia|].
    destruct (Z.ltb_spec c 0x10000); [|subst c; lia].
    replace (224 + c / 4096) with (byte_to_Z b0) by (subst c; Z.div_mod_to_equations; lia).
    replace (128 + (c / 64) mod 64) with (byte_to_Z b1) by (subst c; Z.div_mod_to_equations; lia).
    replace (128 + c mod 64) with (byte_to_Z b2) by (subst c; Z.div_mod_to_equations; lia).
    rewrite !byte_of_to_Z. reflexivity. }
  destruct (Z.ltb_spec (byte_to_Z b0) 0xF8); [|discriminate].
  destruct r0 as [|b1 [|b2 [|b3 r3]]]; try discriminate.
  unfold is_cont, cont_bits.
  pose proof (byte_to_Z_range b1) as R1. pose proof (byte_to_Z_range b2) as R2.
  pose proof (byte_to_Z_range b3) as R3.
  set (c := (byte_to_Z b0 - 240) * 262144 + (byte_to_Z b1 - 128) * 4096
            + (byte_to_Z b2 - 128) * 64 + (byte_to_Z b3 - 128)).
  destruct (Z.leb_spec 128 (byte_to_Z b1)); [|discriminate].
  destruct (Z.ltb_spec (byte_to_Z b1) 192); [|discriminate].
  destruct (Z.leb_spec 128 (byte_to_Z b2)); [|discriminate].
  destruct (Z.ltb_spec (byte_to_Z b2) 192); [|discriminate].
  destruct (Z.leb_spec 128 (byte_to_Z b3)); [|discriminate].
  destruct (Z.ltb_spec (byte_to_Z b3) 192); [|discriminate].
  destruct (Z.leb_spec 65536 c); [|discriminate].
  destruct (Z.ltb_spec c 1114112); [|discriminate]. cbn [andb].
  destruct (utf8_decode r3) as [t'|] eqn:E; [|discriminate].
  intros [= <-]. exists c, [b0; b1; b2; b3], r3, t'.
  repeat split; auto; [|cbn; lia]. unfold utf8_encode_char.
  destruct (Z.ltb_spec c 0); [lia|].
  destruct (Z.ltb_spec c 0x80); [lia|].
  destruct (Z.ltb_spec c 0x800); [lia|].
  destruct (Z.ltb_spec c 0x10000); [lia|].
  destruct (Z.ltb_spec c 0x110000); [|lia].
  replace (240 + c / 262144) with (byte_to_Z b0) by (subst c; Z.div_mod_to_equations; lia).
  replace (128 + (c / 4096) mod 64) with (byte_to_Z b1) by (subst c; Z.div_mod_to_equations; lia).
  replace (128 + (c / 64) mod 64) with (byte_to_Z b2) by (subst c; Z.div_mod_to_equations; lia).
  replace (128 + c mod 64) with (byte_to_Z b3) by (subst c; Z.div_mod_to_equations; lia).
  rewrite !byte_of_to_Z. reflexivity.
Qed.
Local Transparent Z.add Z.mul Z.sub Z.div Z.modulo.

Lemma utf8_encode_decode_aux n : forall bs t,
  (length bs < n)%nat -> utf8_decode bs = Some t -> utf8_encode t = Some bs.
Proof.
  induction n as [|n IH]; intros bs t Hn Hd; [lia|].
  destruct bs as [|b0 r0].
  - cbn in Hd. injection Hd as <-. reflexivity.
  - apply utf8_decode_step in Hd.
    destruct Hd as (c & pre & rest & t' & Hsplit & -> & Hc & Hr & Hlen).
    cbn [utf8_encode]. rewrite Hc, (IH rest t') by (auto; lia).
    rewrite Hsplit. reflexivity.
Qed.

Lemma utf8_encode_decode bs t :
  utf8_decode bs = Some t -> utf8_encode t = Some bs.
Proof. apply (utf8_encode_decode_aux (S (length bs))). lia. Qed.

(** ** The server loop against the decoder *)

Section LoopFacts.
Variable net : list send_event -> sock -> bytes -> send_result.

Lemma rbuf_set_rbuf_same s b st : rbuf (set_rbuf s b st) s = b.
Proof. cbn. rewrite Nat.eqb_refl. reflexivity. Qed.

Lemma process_loop_fuel s f1 : forall f2 st,
  (length (rbuf st s) < f1)%nat -> (length (rbuf st s) < f2)%nat ->
  process_loop net f1 s st = process_loop net f2 s st.
Proof.
  induction f1 as [|f1 IH]; intros f2 st H1 H2; [lia|].
  destruct f2 as [|f2]; [lia|]. cbn [process_loop].
  destruct (parse_head (rbuf st s)) eqn:E; try reflexivity.
  apply parse_head_complete_shorter in E.
  destruct (utf8_decode payload) as [text|].
  - unfold bind.
    pose proof (on_text_fields net s text (set_rbuf s rest st)) as Hf.
    cbv zeta in Hf. destruct Hf as (Hr & _).
    destruct (_on_text_from_client net s text (set_rbuf s rest st)) as [st2 [[]|e]];
      [|reflexivity].
    cbn [fst] in Hr. apply IH; rewrite Hr, rbuf_set_rbuf_same; lia.
  - apply IH; rewrite rbuf_set_rbuf_same; lia.
Qed.

Lemma process_frames_unfold s st :
  _process_frames net s st =
  match parse_head (rbuf st s) with
  | NeedMore => (st, Ok tt)
  | BadFrameType => _drop_client s st
  | BadFrameLength _ => _drop_client s st
  | Complete payload rest =>
      match utf8_decode payload with
      | None => _process_frames net s (set_rbuf s rest st)
      | Some text =>
          (_on_text_from_client net s text ;; _process_frames net s)
            (set_rbuf s rest st)
      end
  end.
Proof.
  unfold _process_frames at 1. cbn [process_loop].
  destruct (parse_head (rbuf st s)) eqn:E; try reflexivity.
  apply parse_head_complete_shorter in E.
  destruct (utf8_decode payload) as [text|].
  - unfold bind.
    pose proof (on_text_fields net s text (set_rbuf s rest st)) as Hf.
    cbv zeta in Hf. destruct Hf as (Hr & _).
    destruct (_on_text_from_client net s text (set_rbuf s rest st)) as [st2 [[]|e]];
      [|reflexivity].
    cbn [fst] in Hr. unfold _process_frames.
    apply process_loop_fuel; rewrite Hr, rbuf_set_rbuf_same; lia.
  - unfold _process_frames.
    apply process_loop_fuel; rewrite rbuf_set_rbuf_same; lia.
Qed.

Lemma frame_text_decoded payload text :
  utf8_decode payload = Some text -> len payload <= MAX_BYTES ->
  exists frame, frame_text text = Ok frame.
Proof.
  intros Hd Hm. apply frame_text_ok_iff. exists payload.
  split; [apply utf8_encode_decode; assumption|assumption].
Qed.

Lemma on_text_ok sender text frame st :
  frame_text text = Ok frame ->
  exists st',
    _on_text_from_client net sender text st = (st', Ok tt) /\
    rbuf st' = rbuf st /\
    clip_writes st' = clip_writes st ++ [ClipWrite text (Some text)] /\
    (In sender (clients st') <-> In sender (clients st)) /\
    (In sender (closed st') -> In sender (closed st)).
Proof.
  intros Hf. rewrite on_text_unfold, Hf. unfold _broadcast.
  rewrite broadcast_to_spec. cbv zeta. eexists. split; [reflexivity|].
  cbn [rbuf clip_writes clients closed mark_applied wire].
  assert (Hnf : ~ In sender
                  (failed_socks
                     (broadcast_events net (wire st) (clients st) frame (Some sender)))).
  { rewrite in_failed_socks, events_of_absent.
    - intros (e & [] & _).
    - right. cbn. apply Nat.eqb_refl. }
  repeat split; auto.
  - intros H. apply in_drop_all in H. tauto.
  - intros H. apply in_drop_all. tauto.
  - intros H. apply in_app_or in H. destruct H as [H|H]; [|exact H].
    apply in_rev in H. contradiction.
Qed.

(** [_process_frames] against the decoder: it returns, the clipboard
    writes it causes are the decoded texts in order, and the connection ends
    as the decoder says. *)
Lemma process_frames_decodes_aux s n : forall st,
  (length (rbuf st s) < n)%nat ->
  exists ts status st',
    decode_frames (rbuf st s) = Some (ts, status) /\
    _process_frames net s st = (st', Ok tt) /\
    clip_writes st' =
      clip_writes st ++ map (fun t => ClipWrite t (Some t)) ts /\
    match status with
    | Open residue =>
        rbuf st' s = residue /\ (In s (clients st') <-> In s (clients st)) /\
        (In s (closed st') -> In s (closed st))
    | Dropped _ => ~ In s (clients st') /\ In s (closed st')
    end.
Proof.
  induction n as [|n IH]; intros st Hn; [lia|].
  rewrite decode_frames_unfold, process_frames_unfold.
  destruct (parse_head (rbuf st s)) eqn:E.
  - exists [], (Open (rbuf st s)), st. cbn [map]. rewrite app_nil_r. tauto.
  - eexists [], (Dropped BadType), _. split; [reflexivity|].
    split; [reflexivity|]. cbn. rewrite app_nil_r. split; [reflexivity|].
    split; [|auto]. intros H. apply in_remove_sock in H. tauto.
  - eexists [], (Dropped (BadLength length)), _. split; [reflexivity|].
    split; [reflexivity|]. cbn. rewrite app_nil_r. split; [reflexivity|].
    split; [|auto]. intros H. apply in_remove_sock in H. tauto.
  - pose proof (parse_head_complete_shorter _ _ _ E) as Hs.
    apply parse_head_complete_inv in E.
    destruct E as (b0 & b1 & b2 & b3 & b4 & Hbuf & _ & _ & Hmax).
    destruct (utf8_decode payload) as [text|] eqn:Ed.
    + destruct (frame_text_decoded _ _ Ed Hmax) as [frame Hf].
      destruct (on_text_ok s text frame (set_rbuf s rest st) Hf)
        as (st1 & Hrun & Hr & Hw & Hc & Hcl).
      destruct (IH st1) as (ts & status & st' & Hdec & Hproc & Hw' & Hfin).
      { rewrite Hr, rbuf_set_rbuf_same. lia. }
      rewrite Hr, rbuf_set_rbuf_same in Hdec.
      exists (text :: ts), status, st'. unfold deliver. rewrite Hdec, Ed.
      split; [reflexivity|]. unfold bind. rewrite Hrun.
      split; [exact Hproc|]. rewrite Hw', Hw. cbn [map clip_writes set_rbuf].
      rewrite <- app_assoc. split; [reflexivity|].
      destruct status; [|exact Hfin].
      cbn [clients closed set_rbuf] in Hc, Hcl. intuition.
    + destruct (IH (set_rbuf s rest st)) as (ts & status & st' & Hdec & Hproc & Hw' & Hfin).
      { rewrite rbuf_set_rbuf_same. lia. }
      rewrite rbuf_set_rbuf_same in Hdec.
      exists ts, status, st'. unfold deliver. rewrite Hdec, Ed.
      split; [reflexivity|]. split; [exact Hproc|]. split; [exact Hw'|].
      exact Hfin.
Qed.

Lemma process_frames_decodes s st :
  exists ts status st',
    decode_frames (rbuf st s) = Some (ts, status) /\
    _process_frames net s st = (st', Ok tt) /\
    clip_writes st' =
      clip_writes st ++ map (fun t => ClipWrite t (Some t)) ts /\
    match status with
    | Open residue =>
        rbuf st' s = residue /\ (In s (clients st') <-> In s (clients st)) /\
        (In s (closed st') -> In s (closed st))
    | Dropped _ => ~ In s (clients st') /\ In s (closed st')
    end.
Proof. apply (process_frames_decodes_aux s (S (length (rbuf st s)))). lia. Qed.
End LoopFacts.

(** C3.  If the UTF-8 encoding [data] of [t] has between 1 and
    [MAX_BYTES] bytes, [frame_text t] is a frame of [5 + len data] bytes;
    at the head of any buffer the decoder takes exactly that frame off,
    leaving what follows, and its payload decodes to [t]; decoding the
    frame alone delivers [t] and leaves nothing. *)
Theorem frame_roundtrip t data :
  utf8_encode t = Some data -> 0 < len data -> len data <= MAX_BYTES ->
  exists frame,
    frame_text t = Ok frame /\
    len frame = 5 + len data /\
    (forall rest, parse_head (frame ++ rest) = Complete data rest) /\
    utf8_decode data = Some t /\
    decode_frames frame = Some ([t], Open []).
Proof.
  intros He Hpos Hmax. unfold frame_text. rewrite He.
  destruct (Z.gtb_spec (len data) MAX_BYTES); [lia|].
  destruct (pack_be32_ok (len data)) as (b1 & b2 & b3 & b4 & -> & Hu).
  { unfold MAX_BYTES in Hmax. lia. }
  eexists. split; [reflexivity|].
  assert (Hhead : forall rest,
             parse_head ((byte_of_Z MSG_TEXT :: [b1; b2; b3; b4] ++ data) ++ rest)
             = Complete data rest).
  { intros rest. cbn [app]. apply parse_head_complete; auto. }
  split; [|split; [exact Hhead|split]].
  - change (byte_of_Z MSG_TEXT :: [b1; b2; b3; b4] ++ data)
      with ([byte_of_Z MSG_TEXT; b1; b2; b3; b4] ++ data).
    rewrite len_app. reflexivity.
  - apply utf8_decode_encode. exact He.
  - rewrite decode_frames_unfold. specialize (Hhead []).
    rewrite app_nil_r in Hhead. rewrite Hhead.
    unfold deliver. rewrite (utf8_decode_encode _ _ He). reflexivity.
Qed.

(** C5.  For a text with UTF-8 encoding [data], [frame_text] raises
    "payload too large" exactly when [data] has more than [MAX_BYTES]
    bytes, and raises nothing else; otherwise it returns the byte [01], the
    length of [data] in four bytes, most significant first, and [data]. *)
Theorem frame_text_spec t data :
  utf8_encode t = Some data ->
  (frame_text t = Raise ValueError_payload_too_large <-> len data > MAX_BYTES) /\
  (forall e, frame_text t = Raise e -> e = ValueError_payload_too_large) /\
  (len data <= MAX_BYTES ->
   frame_text t =
     Ok (x01 :: byte_of_Z (len data / 16777216)
             :: byte_of_Z ((len data / 65536) mod 256)
             :: byte_of_Z ((len data / 256) mod 256)
             :: byte_of_Z (len data mod 256) :: data) /\
   unpack_be32 (byte_of_Z (len data / 16777216))
               (byte_of_Z ((len data / 65536) mod 256))
               (byte_of_Z ((len data / 256) mod 256))
               (byte_of_Z (len data mod 256)) = len data).
Proof.
  intros He. unfold frame_text. rewrite He. pose proof (len_nonneg data) as Hn.
  destruct (Z.gtb_spec (len data) MAX_BYTES) as [Hgt|Hle].
  - split; [split; [lia|reflexivity]|]. split; [intros e [= <-]; reflexivity|lia].
  - destruct (pack_be32_ok (len data)) as (b1 & b2 & b3 & b4 & Hp & Hu).
    { unfold MAX_BYTES in Hle. lia. }
    rewrite Hp. split; [split; [discriminate|lia]|]. split; [discriminate|].
    intros _. unfold pack_be32 in Hp.
    destruct ((0 <=? len data) && (len data <? 4294967296)); [|discriminate].
    injection Hp as <- <- <- <-. split; [reflexivity|exact Hu].
Qed.

(** C9.  The four length bytes of a header always read as a number in
    [0 .. 2^32-1], so the test [length < 0] is never true: a header with the
    right type byte is rejected for its length exactly when the length is
    above [MAX_BYTES], every bad-length verdict carries such a length, and
    on it [_process_frames] drops the connection. *)
Theorem negative_length_unreachable b1 b2 b3 b4 :
  0 <= unpack_be32 b1 b2 b3 b4 < 4294967296 /\
  (unpack_be32 b1 b2 b3 b4 <? 0) = false /\
  (forall b0 body,
     byte_to_Z b0 = MSG_TEXT ->
     (parse_head (b0 :: b1 :: b2 :: b3 :: b4 :: body)
      = BadFrameLength (unpack_be32 b1 b2 b3 b4)
      <-> unpack_be32 b1 b2 b3 b4 > MAX_BYTES)) /\
  (forall buf n, parse_head buf = BadFrameLength n -> n > MAX_BYTES) /\
  (forall net s st b0 body,
     rbuf st s = b0 :: b1 :: b2 :: b3 :: b4 :: body ->
     byte_to_Z b0 = MSG_TEXT ->
     unpack_be32 b1 b2 b3 b4 > MAX_BYTES ->
     _process_frames net s st = _drop_client s st).
Proof.
  pose proof (unpack_be32_range b1 b2 b3 b4) as R.
  split; [exact R|]. split; [apply Z.ltb_ge; lia|].
  split; [|split].
  - intros b0 body H0. unfold parse_head. rewrite H0, Z.eqb_refl. cbn [negb].
    destruct (Z.ltb_spec (unpack_be32 b1 b2 b3 b4) 0); [lia|].
    destruct (Z.gtb_spec (unpack_be32 b1 b2 b3 b4) MAX_BYTES); cbn [orb].
    + split; [lia|reflexivity].
    + destruct (len (b0 :: b1 :: b2 :: b3 :: b4 :: body) <? 5 + unpack_be32 b1 b2 b3 b4);
        split; try discriminate; lia.
  - intros buf n. unfold parse_head.
    destruct buf as [|c0 [|c1 [|c2 [|c3 [|c4 body]]]]]; try discriminate.
    destruct (negb (byte_to_Z c0 =? MSG_TEXT)); [discriminate|].
    pose proof (unpack_be32_range c1 c2 c3 c4) as R'.
    destruct (Z.ltb_spec (unpack_be32 c1 c2 c3 c4) 0); [lia|].
    destruct (Z.gtb_spec (unpack_be32 c1 c2 c3 c4) MAX_BYTES); cbn [orb].
    + intros [= <-]. lia.
    + destruct (len (c0 :: c1 :: c2 :: c3 :: c4 :: body) <? 5 + unpack_be32 c1 c2 c3 c4);
        discriminate.
  - intros net s st b0 body Hb H0 Hgt. rewrite process_frames_unfold, Hb.
    unfold parse_head. rewrite H0, Z.eqb_refl. cbn [negb].
    destruct (Z.ltb_spec (unpack_be32 b1 b2 b3 b4) 0); [lia|].
    destruct (Z.gtb_spec (unpack_be32 b1 b2 b3 b4) MAX_BYTES); [|lia].
    reflexivity.
Qed.

(** C7.  A complete frame with the right type and a length within bounds
    whose payload is not UTF-8 is taken off the buffer and nothing else
    happens: [_process_frames] goes on exactly as if called with the rest of
    the buffer, nothing is delivered for it, and if the rest holds no
    complete frame the call returns with the connection still registered
    and the rest in its buffer. *)
Theorem invalid_utf8_frame_skipped net s st b0 b1 b2 b3 b4 payload rest :
  rbuf st s = b0 :: b1 :: b2 :: b3 :: b4 :: payload ++ rest ->
  byte_to_Z b0 = MSG_TEXT ->
  unpack_be32 b1 b2 b3 b4 = len payload ->
  len payload <= MAX_BYTES ->
  utf8_decode payload = None ->
  _process_frames net s st = _process_frames net s (set_rbuf s rest st) /\
  decode_frames (rbuf st s) = decode_frames rest /\
  (parse_head rest = NeedMore ->
   _process_frames net s st = (set_rbuf s rest st, Ok tt)).
Proof.
  intros Hb H0 Hl Hm Hd.
  assert (Hh : parse_head (rbuf st s) = Complete payload rest).
  { rewrite Hb. apply parse_head_complete; assumption. }
  assert (Hstep : _process_frames net s st
                  = _process_frames net s (set_rbuf s rest st)).
  { rewrite process_frames_unfold, Hh, Hd. reflexivity. }
  split; [exact Hstep|]. split.
  - rewrite decode_frames_unfold, Hh. unfold deliver. rewrite Hd.
    destruct (decode_frames rest) as [[ts st']|]; reflexivity.
  - intros Hr. rewrite Hstep, process_frames_unfold, rbuf_set_rbuf_same, Hr.
    reflexivity.
Qed.

Lemma existsb_eqb_in s l : existsb (Nat.eqb s) l = true <-> In s l.
Proof.
  rewrite existsb_exists. split.
  - intros (x & Hx & Hs). apply Nat.eqb_eq in Hs. subst. exact Hx.
  - intros H. exists s. split; [exact H|apply Nat.eqb_refl].
Qed.

Lemma frame_text_empty : frame_text [] = Ok empty_frame.
Proof. reflexivity. Qed.

(** C10.  The frame of the empty text, received from a registered peer
    with an empty buffer, is handled in full: [_last_sent_from_pc] becomes
    the empty string, the clipboard writer is called with it, and the frame
    is sent to every other registered connection.  A watcher tick that
    reads the empty string queues and sends nothing, and so does the
    initial push of [_accept]. *)
Theorem empty_text_asymmetry net :
  (forall st s,
     In s (clients st) -> rbuf st s = [] ->
     exists st' evs,
       _handle_client net s (RecvData empty_frame) st = (st', Ok tt) /\
       _last_sent_from_pc st' = Some [] /\
       clip_writes st' = clip_writes st ++ [ClipWrite [] (Some [])] /\
       wire st' = wire st ++ evs /\
       map ev_sock evs = filter (fun c => negb (Nat.eqb c s)) (clients st) /\
       Forall (fun e => ev_payload e = empty_frame) evs /\
       rbuf st' s = []) /\
  (forall st,
     snd (watch_tick (true, Some []) st) = Ok tt /\
     to_broadcast (fst (watch_tick (true, Some []) st)) = to_broadcast st /\
     wire (fst (watch_tick (true, Some []) st)) = wire st) /\
  (forall st conn,
     snd (_accept net conn (true, Some []) st) = Ok tt /\
     wire (fst (_accept net conn (true, Some []) st)) = wire st).
Proof.
  split; [|split].
  - intros st s Hin Hbuf. unfold _handle_client.
    apply existsb_eqb_in in Hin. rewrite Hin. cbn [negb empty_frame].
    fold empty_frame. rewrite Hbuf. cbn [app].
    rewrite process_frames_unfold, rbuf_set_rbuf_same.
    change (parse_head empty_frame) with (Complete [] []).
    cbn [utf8_decode]. unfold bind.
    rewrite on_text_unfold, frame_text_empty. unfold _broadcast.
    rewrite broadcast_to_spec. cbv zeta.
    rewrite process_frames_unfold.
    cbn [rbuf set_rbuf mark_applied clients wire]. rewrite Nat.eqb_refl.
    cbn [parse_head]. do 2 eexists. split; [reflexivity|].
    cbn [_last_sent_from_pc clip_writes wire rbuf].
    rewrite Nat.eqb_refl.
    split; [reflexivity|]. split; [reflexivity|]. split; [reflexivity|].
    split; [apply broadcast_events_socks|].
    split; [apply broadcast_events_payload|reflexivity].
  - intros st. unfold watch_tick.
    destruct (differs [] (_last_polled st)); [|cbn; auto].
    destruct (differs [] (_last_sent_from_pc st)); cbn; auto.
  - intros st conn. cbn. auto.
Qed.

(* ================================================================== *)
(** ** The statements at sample inputs *)

Lemma three_clients_nodup : NoDup (clients three_clients).
Proof.
  cbn. repeat constructor; cbn; intuition discriminate.
Qed.

Lemma peer_text_not_rebroadcast_witness :
  _last_sent_from_pc (fst (_on_text_from_client net_ok 1%nat hello three_clients))
  = Some hello /\
  to_broadcast
    (fst (watch_tick (true, Some hello)
            (fst (_on_text_from_client net_ok 1%nat hello three_clients))))
  = to_broadcast (fst (_on_text_from_client net_ok 1%nat hello three_clients)).
Proof.
  destruct (peer_text_not_rebroadcast net_ok 1%nat hello three_clients)
    as (_ & Hs & _ & Htick).
  split; [exact Hs|]. apply (Htick _ Hs).
Defined.

Lemma watch_tick_enqueue_iff_witness :
  to_broadcast (fst (watch_tick (true, Some hello) idle_server))
  = to_broadcast idle_server ++ [x01 :: x00 :: x00 :: x00 :: x05 :: hello_utf8] /\
  frame_text hello = Ok (x01 :: x00 :: x00 :: x00 :: x05 :: hello_utf8) /\
  _last_sent_from_pc (fst (watch_tick (true, Some hello) idle_server))
  = Some hello.
Proof.
  split; [reflexivity|].
  apply (proj1 (proj2 (watch_tick_enqueue_iff idle_server hello))).
  reflexivity.
Defined.

Lemma frame_roundtrip_witness :
  utf8_encode hello = Some hello_utf8 /\
  0 < len hello_utf8 /\ len hello_utf8 <= MAX_BYTES /\
  exists frame,
    frame_text hello = Ok frame /\
    len frame = 5 + len hello_utf8 /\
    (forall rest, parse_head (frame ++ rest) = Complete hello_utf8 rest) /\
    utf8_decode hello_utf8 = Some hello /\
    decode_frames frame = Some ([hello], Open []).
Proof.
  split; [reflexivity|]. split; [reflexivity|]. split; [discriminate|].
  apply (frame_roundtrip hello hello_utf8); [reflexivity|reflexivity|discriminate].
Defined.

Lemma frame_text_spec_witness :
  utf8_encode hello = Some hello_utf8 /\
  frame_text hello = Ok (x01 :: x00 :: x00 :: x00 :: x05 :: hello_utf8).
Proof.
  split; [reflexivity|].
  destruct (frame_text_spec hello hello_utf8 eq_refl) as (_ & _ & Hok).
  destruct Hok as [Hok _]; [discriminate|]. exact Hok.
Defined.

Lemma broadcast_fault_isolation_witness :
  NoDup (clients three_clients) /\
  exists evs st',
    _broadcast net_2_down empty_frame (Some 1%nat) three_clients = (st', Ok tt) /\
    wire st' = wire three_clients ++ evs /\
    events_of 3%nat evs = [SendEvent 3%nat empty_frame Sent] /\
    In 3%nat (clients st') /\ In 1%nat (clients st') /\
    ~ In 2%nat (clients st') /\ In 2%nat (closed st').
Proof.
  split; [exact three_clients_nodup|].
  destruct (broadcast_fault_isolation net_2_down empty_frame (Some 1%nat)
              three_clients three_clients_nodup)
    as (evs & st' & Hrun & Hw & _ & _ & _ & _ & _).
  exists evs, st'. split; [exact Hrun|]. split; [exact Hw|].
  cbn in Hrun. injection Hrun as <-. cbn in Hw. subst evs.
  cbn. repeat split; auto. intros [H|[H|[]]]; discriminate.
Defined.

Lemma invalid_utf8_frame_skipped_witness :
  utf8_decode [xff] = None /\
  _process_frames net_ok 1%nat garbled_from_1
  = (set_rbuf 1%nat [] garbled_from_1, Ok tt).
Proof.
  split; [reflexivity|].
  apply (invalid_utf8_frame_skipped net_ok 1%nat garbled_from_1
           x01 x00 x00 x00 x01 [xff] []);
    [reflexivity|reflexivity|reflexivity|discriminate|reflexivity|reflexivity].
Defined.

Lemma negative_length_unreachable_witness :
  unpack_be32 xff xff xff xff > MAX_BYTES /\
  parse_head [x01; xff; xff; xff; xff] = BadFrameLength 4294967295.
Proof.
  split; [reflexivity|].
  destruct (negative_length_unreachable xff xff xff xff) as (_ & _ & Hiff & _).
  apply (proj2 (Hiff x01 [] eq_refl)). reflexivity.
Defined.

Lemma empty_text_asymmetry_witness :
  In 1%nat (clients three_clients) /\ rbuf three_clients 1%nat = [] /\
  exists st' evs,
    _handle_client net_ok 1%nat (RecvData empty_frame) three_clients = (st', Ok tt) /\
    _last_sent_from_pc st' = Some [] /\
    clip_writes st' = clip_writes three_clients ++ [ClipWrite [] (Some [])] /\
    wire st' = wire three_clients ++ evs /\
    map ev_sock evs = [2; 3]%nat.
Proof.
  split; [left; reflexivity|]. split; [reflexivity|].
  destruct (proj1 (empty_text_asymmetry net_ok) three_clients 1%nat
              (or_introl eq_refl) eq_refl)
    as (st' & evs & Hrun & Hs & Hc & Hw & Hm & _).
  exists st', evs. repeat split; assumption.
Defined.

(* ================================================================== *)
(** * Further properties of the code *)

(** ** More on the frame codec *)

Lemma pack_unpack_be32 b1 b2 b3 b4 :
  pack_be32 (unpack_be32 b1 b2 b3 b4) = Ok [b1; b2; b3; b4].
Proof.
  pose proof (unpack_be32_range b1 b2 b3 b4) as R. unfold pack_be32.
  destruct (Z.leb_spec 0 (unpack_be32 b1 b2 b3 b4)); [|lia].
  destruct (Z.ltb_spec (unpack_be32 b1 b2 b3 b4) 4294967296); [|lia].
  cbn [andb]. unfold unpack_be32 in *.
  pose proof (byte_to_Z_range b1). pose proof (byte_to_Z_range b2).
  pose proof (byte_to_Z_range b3). pose proof (byte_to_Z_range b4).
  set (n := byte_to_Z b1 * 16777216 + byte_to_Z b2 * 65536
            + byte_to_Z b3 * 256 + byte_to_Z b4) in *.
  replace (n / 16777216) with (byte_to_Z b1)
    by (subst n; Z.div_mod_to_equations; lia).
  replace ((n / 65536) mod 256) with (byte_to_Z b2)
    by (subst n; Z.div_mod_to_equations; lia).
  replace ((n / 256) mod 256) with (byte_to_Z b3)
    by (subst n; Z.div_mod_to_equations; lia).
  replace (n mod 256) with (byte_to_Z b4)
    by (subst n; Z.div_mod_to_equations; lia).
  rewrite !byte_of_to_Z. reflexivity.
Qed.

Lemma frame_text_ok_inv t f :
  frame_text t = Ok f ->
  exists data b1 b2 b3 b4,
    utf8_encode t = Some data /\ len data <= MAX_BYTES /\
    f = x01 :: b1 :: b2 :: b3 :: b4 :: data /\
    unpack_be32 b1 b2 b3 b4 = len data.
Proof.
  unfold frame_text. destruct (utf8_encode t) as [data|]; [|discriminate].
  destruct (Z.gtb_spec (len data) MAX_BYTES) as [|Hle]; [discriminate|].
  pose proof (len_nonneg data).
  destruct (pack_be32_ok (len data)) as (b1 & b2 & b3 & b4 & -> & Hu).
  { unfold MAX_BYTES in Hle. lia. }
  intros [= <-]. exists data, b1, b2, b3, b4. auto.
Qed.

Lemma frame_text_head t f rest :
  frame_text t = Ok f ->
  exists data,
    utf8_encode t = Some data /\ parse_head (f ++ rest) = Complete data rest.
Proof.
  intros H. apply frame_text_ok_inv in H.
  destruct H as (data & b1 & b2 & b3 & b4 & He & Hm & -> & Hu).
  exists data. split; [exact He|]. cbn [app].
  apply parse_head_complete; auto.
Qed.

(** X1.  Distinct texts have distinct frames. *)
Theorem frame_text_injective t1 t2 f :
  frame_text t1 = Ok f -> frame_text t2 = Ok f -> t1 = t2.
Proof.
  intros H1 H2.
  destruct (frame_text_head _ _ [] H1) as (d1 & E1 & P1).
  destruct (frame_text_head _ _ [] H2) as (d2 & E2 & P2).
  rewrite P1 in P2. injection P2 as <-.
  apply utf8_decode_encode in E1. apply utf8_decode_encode in E2.
  congruence.
Qed.


Lemma prepend_texts_nil r : prepend_texts [] r = r.
Proof. destruct r as [[ts s]|]; reflexivity. Qed.

Lemma prepend_texts_cons t ts r :
  prepend_texts [t] (prepend_texts ts r) = prepend_texts (t :: ts) r.
Proof. destruct r as [[ts' s]|]; reflexivity. Qed.

Lemma decode_frames_frame t f rest :
  frame_text t = Ok f ->
  decode_frames (f ++ rest) = prepend_texts [t] (decode_frames rest).
Proof.
  intros H. destruct (frame_text_head _ _ rest H) as (data & He & Hp).
  rewrite decode_frames_unfold, Hp. unfold deliver.
  rewrite (utf8_decode_encode _ _ He).
  destruct (decode_frames rest) as [[ts s]|]; reflexivity.
Qed.

(** X2.  Several frames read in one piece are all decoded, in order, and what
    follows them is decoded as if it had come alone. *)
Theorem coalesced_frames_drain ts : forall fs rest,
  Forall2 (fun t f => frame_text t = Ok f) ts fs ->
  decode_frames (concat fs ++ rest) = prepend_texts ts (decode_frames rest) /\
  decode_frames (concat fs) = Some (ts, Open []).
Proof.
  assert (G : forall fs rest,
             Forall2 (fun t f => frame_text t = Ok f) ts fs ->
             decode_frames (concat fs ++ rest)
             = prepend_texts ts (decode_frames rest)).
  { induction ts as [|t ts IH]; intros fs rest H; inversion H; subst.
    - cbn [concat app]. symmetry. apply prepend_texts_nil.
    - cbn [concat]. rewrite <- app_assoc.
      rewrite (decode_frames_frame t _ _ H2), IH by assumption.
      apply prepend_texts_cons. }
  intros fs rest H. split; [apply G; exact H|].
  specialize (G fs [] H). rewrite app_nil_r in G. rewrite G.
  change (decode_frames []) with (Some (@nil str, Open [])).
  cbn [prepend_texts]. rewrite app_nil_r. reflexivity.
Qed.

Lemma parse_head_short buf : len buf < 5 -> parse_head buf = NeedMore.
Proof.
  destruct buf as [|b0 [|b1 [|b2 [|b3 [|b4 body]]]]]; try reflexivity.
  unfold len. cbn [length]. lia.
Qed.

(** X3.  A frame cut short anywhere is neither delivered nor rejected: the bytes
    stay in the buffer. *)
Theorem partial_frame_waits t f n :
  frame_text t = Ok f -> (n < length f)%nat ->
  decode_frames (firstn n f) = Some ([], Open (firstn n f)).
Proof.
  intros H Hn. apply frame_text_ok_inv in H.
  destruct H as (data & b1 & b2 & b3 & b4 & He & Hm & -> & Hu).
  rewrite decode_frames_unfold.
  replace (parse_head (firstn n (x01 :: b1 :: b2 :: b3 :: b4 :: data)))
    with NeedMore; [reflexivity|].
  symmetry. destruct (Nat.lt_ge_cases n 5) as [Hs|Hl].
  - apply parse_head_short. unfold len. rewrite length_firstn. lia.
  - do 5 (destruct n as [|n]; [lia|]). cbn [firstn]. unfold parse_head.
    change (byte_to_Z x01 =? MSG_TEXT) with true. cbn [negb]. rewrite Hu.
    pose proof (len_nonneg data).
    destruct (Z.ltb_spec (len data) 0); [lia|].
    destruct (Z.gtb_spec (len data) MAX_BYTES); [lia|]. cbn [orb].
    change (len (x01 :: b1 :: b2 :: b3 :: b4 :: firstn n data))
      with (len ([x01; b1; b2; b3; b4] ++ firstn n data)).
    rewrite len_app. cbn [length] in Hn. unfold len at 2.
    rewrite length_firstn. change (len [x01; b1; b2; b3; b4]) with 5.
    unfold len.
    destruct (Z.ltb_spec (5 + Z.of_nat (Nat.min n (length data)))
                         (5 + Z.of_nat (length data))); [reflexivity|lia].
Qed.

(** X4.  A complete frame whose payload is UTF-8 is, byte for byte, the frame of
    the text it carries: what is broadcast again is what was received. *)
Theorem received_frame_is_reencoded buf payload rest text :
  parse_head buf = Complete payload rest ->
  utf8_decode payload = Some text ->
  exists frame, frame_text text = Ok frame /\ buf = frame ++ rest.
Proof.
  intros Hp Hd. apply parse_head_complete_inv in Hp.
  destruct Hp as (b0 & b1 & b2 & b3 & b4 & -> & H0 & Hu & Hm).
  unfold frame_text. rewrite (utf8_encode_decode _ _ Hd).
  destruct (Z.gtb_spec (len payload) MAX_BYTES); [lia|].
  rewrite <- Hu, pack_unpack_be32. eexists. split; [reflexivity|].
  rewrite <- (byte_of_to_Z b0), H0. reflexivity.
Qed.

Lemma nodup_remove_sock s l : NoDup l -> NoDup (remove_sock s l).
Proof. apply NoDup_filter. Qed.

Lemma nodup_drop_all failed : forall l, NoDup l -> NoDup (drop_all failed l).
Proof.
  induction failed as [|s failed IH]; intros l H; cbn [drop_all fold_left];
    [exact H|].
  fold (drop_all failed (remove_sock s l)). apply IH, nodup_remove_sock, H.
Qed.

Lemma events_of_app c a b : events_of c (a ++ b) = events_of c a ++ events_of c b.
Proof. apply filter_app. Qed.

Section MoreNetworkFacts.
Variable net : list send_event -> sock -> bytes -> send_result.

(** Everything one [_broadcast] does, seen from a connection that is still
    registered afterwards. *)
Lemma broadcast_survivors payload exclude st :
  NoDup (clients st) ->
  exists evs st',
    _broadcast net payload exclude st = (st', Ok tt) /\
    wire st' = wire st ++ evs /\
    rbuf st' = rbuf st /\ to_broadcast st' = to_broadcast st /\
    _last_polled st' = _last_polled st /\
    _last_sent_from_pc st' = _last_sent_from_pc st /\
    clip_writes st' = clip_writes st /\
    NoDup (clients st') /\
    (forall c, In c (clients st') ->
       In c (clients st) /\
       (is_excluded c exclude = false ->
        events_of c evs = [SendEvent c payload Sent])) /\
    (forall c, is_excluded c exclude = true -> events_of c evs = []).
Proof.
  intros Hnd. unfold _broadcast. rewrite broadcast_to_spec. cbv zeta.
  set (evs := broadcast_events net (wire st) (clients st) payload exclude).
  exists evs. eexists. split; [reflexivity|].
  cbn [wire rbuf to_broadcast _last_polled _last_sent_from_pc clip_writes clients].
  repeat (split; [reflexivity|]).
  split; [apply nodup_drop_all, Hnd|]. split.
  - intros c Hc. apply in_drop_all in Hc. destruct Hc as [Hin Hnf].
    split; [exact Hin|]. intros Hex.
    destruct (events_of_once net c payload exclude (clients st) (wire st) Hnd Hin Hex)
      as [r Hr]. fold evs in Hr. rewrite Hr.
    destruct r; try reflexivity; exfalso; apply Hnf;
      apply in_failed_socks; rewrite Hr; eexists; (split; [left; reflexivity|reflexivity]).
  - intros c Hex. apply events_of_absent. tauto.
Qed.

Lemma broadcast_registry payload exclude st :
  let st' := fst (_broadcast net payload exclude st) in
  (registry_consistent st -> registry_consistent st') /\
  (clients_open st -> clients_open st') /\
  (forall c, In c (clients st') -> In c (clients st)) /\
  (forall c, In c (closed st) -> In c (closed st')).
Proof.
  cbv zeta. unfold _broadcast. rewrite broadcast_to_spec. cbv zeta.
  set (F := failed_socks _). cbn [fst].
  unfold registry_consistent, clients_open. cbn [clients selector closed].
  split; [|split; [|split]].
  - intros [Hnd Hiff]. split; [apply nodup_drop_all, Hnd|].
    intros c. rewrite !in_drop_all, Hiff. tauto.
  - intros Ho c Hc Hcl. apply in_drop_all in Hc. destruct Hc as [Hin Hnf].
    apply in_app_or in Hcl. destruct Hcl as [Hcl|Hcl].
    + apply in_rev in Hcl. contradiction.
    + exact (Ho c Hin Hcl).
  - intros c Hc. apply in_drop_all in Hc. tauto.
  - intros c Hc. apply in_or_app. tauto.
Qed.

Lemma drop_client_registry s st :
  let st' := fst (_drop_client s st) in
  (registry_consistent st -> registry_consistent st') /\
  (clients_open st -> clients_open st') /\
  (forall c, In c (clients st') -> In c (clients st)) /\
  (forall c, In c (closed st) -> In c (closed st')).
Proof.
  cbv zeta. unfold registry_consistent, clients_open. cbn.
  split; [|split; [|split]].
  - intros [Hnd Hiff]. split; [apply nodup_remove_sock, Hnd|].
    intros c. rewrite !in_remove_sock, Hiff. tauto.
  - intros Ho c Hc [Hcl|Hcl].
    + apply in_remove_sock in Hc. subst. tauto.
    + apply in_remove_sock in Hc. exact (Ho c (proj1 Hc) Hcl).
  - intros c Hc. apply in_remove_sock in Hc. tauto.
  - intros c Hc. tauto.
Qed.

Lemma on_text_registry sender text st :
  let st' := fst (_on_text_from_client net sender text st) in
  (registry_consistent st -> registry_consistent st') /\
  (clients_open st -> clients_open st') /\
  (forall c, In c (clients st') -> In c (clients st)) /\
  (forall c, In c (closed st) -> In c (closed st')).
Proof.
  cbv zeta. rewrite on_text_unfold.
  destruct (frame_text text) as [payload|e].
  - exact (broadcast_registry payload (Some sender) (mark_applied text st)).
  - cbn. tauto.
Qed.

(** A property kept by the three things the loop of [_process_frames] does
    is kept by the loop. *)
Lemma process_loop_keeps (P : BridgeServer -> Prop) s :
  (forall b st, P st -> P (set_rbuf s b st)) ->
  (forall t st, P st -> P (fst (_on_text_from_client net s t st))) ->
  (forall st, P st -> P (fst (_drop_client s st))) ->
  forall fuel st, P st -> P (fst (process_loop net fuel s st)).
Proof.
  intros Hset Htext Hdrop. induction fuel as [|fuel IH]; intros st HP;
    [exact HP|].
  cbn [process_loop].
  destruct (parse_head (rbuf st s)); try (apply Hdrop; exact HP); [exact HP|].
  destruct (utf8_decode payload) as [text|].
  - unfold bind. specialize (Htext text _ (Hset rest _ HP)).
    destruct (_on_text_from_client net s text (set_rbuf s rest st)) as [st1 [[]|e]];
      cbn [fst] in Htext; [apply IH; exact Htext|exact Htext].
  - apply IH, Hset, HP.
Qed.

Lemma handle_client_keeps (P : BridgeServer -> Prop) s :
  (forall b st, P st -> P (set_rbuf s b st)) ->
  (forall t st, P st -> P (fst (_on_text_from_client net s t st))) ->
  (forall st, P st -> P (fst (_drop_client s st))) ->
  forall r st, P st -> P (fst (_handle_client net s r st)).
Proof.
  intros Hset Htext Hdrop r st HP. unfold _handle_client.
  destruct (negb (existsb (Nat.eqb s) (clients st))); [apply Hdrop, HP|].
  destruct r as [[|b chunk]| |]; try (apply Hdrop, HP); [|exact HP].
  unfold _process_frames. apply process_loop_keeps; auto.
Qed.

Lemma handle_client_ok s r st : snd (_handle_client net s r st) = Ok tt.
Proof.
  unfold _handle_client.
  destruct (negb (existsb (Nat.eqb s) (clients st))); [reflexivity|].
  destruct r as [[|b chunk]| |]; try reflexivity.
  destruct (process_frames_decodes net s
              (set_rbuf s (rbuf st s ++ b :: chunk) st))
    as (ts & status & st' & _ & -> & _). reflexivity.
Qed.
End MoreNetworkFacts.

Section HandlerTheorems.
Variable net : list send_event -> sock -> bytes -> send_result.

Lemma on_text_wire sender text st :
  exists evs,
    wire (fst (_on_text_from_client net sender text st)) = wire st ++ evs /\
    events_of sender evs = [].
Proof.
  rewrite on_text_unfold. destruct (frame_text text) as [payload|e].
  - unfold _broadcast. rewrite broadcast_to_spec. cbv zeta. cbn [fst wire mark_applied].
    eexists. split; [reflexivity|]. apply events_of_absent. right.
    cbn. apply Nat.eqb_refl.
  - exists []. cbn. rewrite app_nil_r. auto.
Qed.

(** X5.  Whatever arrives on a connection, handling it returns; it leaves the
    queue, [_last_polled] and the buffers of all other connections as they
    were, registers nobody, and sends nothing to the connection the bytes
    came from. *)
Theorem handle_client_confined s r st :
  snd (_handle_client net s r st) = Ok tt /\
  to_broadcast (fst (_handle_client net s r st)) = to_broadcast st /\
  _last_polled (fst (_handle_client net s r st)) = _last_polled st /\
  (forall s', s' <> s ->
     rbuf (fst (_handle_client net s r st)) s' = rbuf st s') /\
  (forall c, In c (clients (fst (_handle_client net s r st))) ->
     In c (clients st)) /\
  exists evs,
    wire (fst (_handle_client net s r st)) = wire st ++ evs /\
    events_of s evs = [].
Proof.
  split; [apply handle_client_ok|].
  split; [|split; [|split; [|split]]].
  - apply (handle_client_keeps net (fun x => to_broadcast x = to_broadcast st));
      auto.
    + intros t x Hx. destruct (on_text_fields net s t x) as (_ & Hq & _).
      congruence.
  - apply (handle_client_keeps net (fun x => _last_polled x = _last_polled st));
      auto.
    + intros t x Hx. destruct (on_text_fields net s t x) as (_ & _ & Hp & _).
      congruence.
  - intros s' Hne.
    apply (handle_client_keeps net (fun x => rbuf x s' = rbuf st s')); auto.
    + intros b x Hx. cbn. apply Nat.eqb_neq in Hne. rewrite Hne. exact Hx.
    + intros t x Hx. destruct (on_text_fields net s t x) as (Hr & _).
      rewrite Hr. exact Hx.
  - intros c.
    apply (handle_client_keeps net
             (fun x => In c (clients x) -> In c (clients st))); auto.
    + intros t x Hx Hc. apply Hx.
      exact (proj1 (proj2 (proj2 (on_text_registry net s t x))) c Hc).
    + intros x Hx Hc. apply Hx.
      exact (proj1 (proj2 (proj2 (drop_client_registry s x))) c Hc).
  - apply (handle_client_keeps net
             (fun x => exists evs, wire x = wire st ++ evs /\ events_of s evs = [])).
    + intros b x Hx. exact Hx.
    + intros t x (evs & Hw & He).
      destruct (on_text_wire s t x) as (evs' & Hw' & He').
      exists (evs ++ evs'). rewrite Hw', Hw, <- app_assoc, events_of_app, He, He'.
      auto.
    + intros x Hx. exact Hx.
    + exists []. rewrite app_nil_r. auto.
Qed.

Lemma handle_client_registry s r st :
  (registry_consistent st ->
   registry_consistent (fst (_handle_client net s r st))) /\
  (clients_open st -> clients_open (fst (_handle_client net s r st))).
Proof.
  split.
  - apply (handle_client_keeps net registry_consistent); auto.
    + intros t x. apply on_text_registry.
    + intros x. apply drop_client_registry.
  - apply (handle_client_keeps net clients_open); auto.
    + intros t x. apply on_text_registry.
    + intros x. apply drop_client_registry.
Qed.

Lemma register_client_registry conn st :
  (registry_consistent st -> registry_consistent (register_client conn st)) /\
  (~ In conn (closed st) -> clients_open st ->
   clients_open (register_client conn st)).
Proof.
  unfold registry_consistent, clients_open. cbn [register_client clients selector closed].
  destruct (existsb (Nat.eqb conn) (clients st)) eqn:E.
  - apply existsb_eqb_in in E. split.
    + intros [Hnd Hiff]. split; [exact Hnd|]. intros c.
      rewrite in_app_iff, Hiff. cbn [In]. split; [tauto|].
      intros [H|[<-|[]]]; [exact H|]. apply Hiff, E.
    + intros _ Ho. exact Ho.
  - assert (Hn : ~ In conn (clients st)).
    { intros H. apply existsb_eqb_in in H. congruence. }
    split.
    + intros [Hnd Hiff]. split.
      * apply NoDup_app; [exact Hnd|repeat constructor; intros []|].
        intros c Hc [<-|[]]. contradiction.
      * intros c. rewrite !in_app_iff, Hiff. tauto.
    + intros Hf Ho c Hc. apply in_app_or in Hc.
      destruct Hc as [Hc|[<-|[]]]; [apply Ho, Hc|exact Hf].
Qed.

(** [_accept] by what the clipboard read gave. *)
Lemma accept_unfold conn read st :
  _accept net conn read st =
  match read with
  | (true, Some txt) =>
      if negb (str_eqb txt []) then
        match frame_text txt with
        | Raise _ => _drop_client conn (register_client conn st)
        | Ok payload =>
            (r <- sendall net conn payload ;;
             match r with
             | Sent => ret tt
             | _ => _drop_client conn
             end) (register_client conn st)
        end
      else (register_client conn st, Ok tt)
  | _ => (register_client conn st, Ok tt)
  end.
Proof.
  unfold _accept, bind, modify.
  destruct read as [[|] [txt|]]; try reflexivity.
  destruct (negb (str_eqb txt [])); [|reflexivity].
  destruct (frame_text txt); [|reflexivity].
  unfold sendall. destruct (net _ _ _); reflexivity.
Qed.


Lemma accept_registry conn read st :
  (registry_consistent st -> registry_consistent (fst (_accept net conn read st))) /\
  (~ In conn (closed st) -> clients_open st ->
   clients_open (fst (_accept net conn read st))).
Proof.
  pose proof (register_client_registry conn st) as [Hc Ho].
  pose proof (drop_client_registry conn (register_client conn st)) as (Dc & Do & _).
  rewrite accept_unfold. destruct read as [[|] [txt|]]; cbn [fst]; try tauto.
  destruct (negb (str_eqb txt [])); cbn [fst]; [|tauto].
  destruct (frame_text txt) as [payload|e]; [|tauto].
  unfold bind, sendall.
  destruct (net (wire (register_client conn st)) conn payload);
    cbn [fst ret].
  - unfold registry_consistent, clients_open in *. cbn [clients selector closed] in *.
    tauto.
  - set (st1 := Server _ _ _ _ _ _ _ _ _).
    pose proof (drop_client_registry conn st1) as (Dc1 & Do1 & _).
    split; intros; [apply Dc1|apply Do1]; unfold registry_consistent, clients_open in *;
      subst st1; cbn [clients selector closed] in *; tauto.
  - set (st1 := Server _ _ _ _ _ _ _ _ _).
    pose proof (drop_client_registry conn st1) as (Dc1 & Do1 & _).
    split; intros; [apply Dc1|apply Do1]; unfold registry_consistent, clients_open in *;
      subst st1; cbn [clients selector closed] in *; tauto.
Qed.
End HandlerTheorems.

Section FlushTheorems.
Variable net : list send_event -> sock -> bytes -> send_result.

Lemma flush_spec q : forall st,
  NoDup (clients st) ->
  exists evs st',
    flush net q st = (st', Ok tt) /\
    to_broadcast st' = match q with [] => to_broadcast st | _ => [] end /\
    wire st' = wire st ++ evs /\
    rbuf st' = rbuf st /\ _last_polled st' = _last_polled st /\
    _last_sent_from_pc st' = _last_sent_from_pc st /\
    clip_writes st' = clip_writes st /\
    NoDup (clients st') /\
    (forall c, In c (clients st') ->
       In c (clients st) /\
       events_of c evs = map (fun p => SendEvent c p Sent) q) /\
    (q = [] -> evs = []).
Proof.
  induction q as [|p q IH]; intros st Hnd.
  - exists [], st. cbn. rewrite app_nil_r. repeat split; auto.
  - cbn [flush]. unfold bind, modify.
    destruct (broadcast_survivors net p None (set_queue q st) Hnd)
      as (evs1 & st1 & Hrun & Hw1 & Hr1 & Hq1 & Hp1 & Hs1 & Hc1 & Hnd1 & Hsurv1 & _).
    rewrite Hrun.
    cbn [set_queue wire rbuf to_broadcast _last_polled _last_sent_from_pc
         clip_writes clients] in Hw1, Hr1, Hq1, Hp1, Hs1, Hc1, Hsurv1.
    destruct (IH st1 Hnd1)
      as (evs2 & st2 & Hrun2 & Hq2 & Hw2 & Hr2 & Hp2 & Hs2 & Hc2 & Hnd2 & Hsurv2 & _).
    rewrite Hrun2. exists (evs1 ++ evs2), st2.
    split; [reflexivity|]. split.
    { rewrite Hq2. destruct q; [rewrite Hq1|]; reflexivity. }
    split; [rewrite Hw2, Hw1, <- app_assoc; reflexivity|].
    split; [congruence|]. split; [congruence|]. split; [congruence|].
    split; [congruence|]. split; [exact Hnd2|]. split; [|discriminate].
    intros c Hc. destruct (Hsurv2 c Hc) as [Hin1 He2].
    destruct (Hsurv1 c Hin1) as [Hin He1]. split; [exact Hin|].
    rewrite events_of_app, He2, (He1 eq_refl). reflexivity.
Qed.

Lemma broadcast_pending_registry st :
  let st' := fst (_broadcast_pending net st) in
  (registry_consistent st -> registry_consistent st') /\
  (clients_open st -> clients_open st') /\
  snd (_broadcast_pending net st) = Ok tt /\
  to_broadcast st' = [].
Proof.
  cbv zeta. unfold _broadcast_pending.
  assert (G : forall q x,
             (registry_consistent x ->
              registry_consistent (fst (flush net q x))) /\
             (clients_open x -> clients_open (fst (flush net q x))) /\
             snd (flush net q x) = Ok tt /\
             to_broadcast (fst (flush net q x))
             = match q with [] => to_broadcast x | _ => [] end).
  { induction q as [|p q IH]; intros x; [cbn; tauto|].
    cbn [flush]. unfold bind, modify.
    pose proof (broadcast_registry net p None (set_queue q x)) as (Bc & Bo & _).
    cbv zeta in Bc, Bo.
    assert (Hq : to_broadcast (fst (_broadcast net p None (set_queue q x))) = q).
    { unfold _broadcast. rewrite broadcast_to_spec. reflexivity. }
    assert (Hok : snd (_broadcast net p None (set_queue q x)) = Ok tt).
    { unfold _broadcast. rewrite broadcast_to_spec. reflexivity. }
    destruct (_broadcast net p None (set_queue q x)) as [x1 r1].
    cbn [fst snd] in *. subst r1.
    destruct (IH x1) as (Ic & Io & Iok & Iq).
    split; [intros H; apply Ic, Bc, H|].
    split; [intros H; apply Io, Bo, H|]. split; [exact Iok|].
    rewrite Iq, Hq. destruct q; reflexivity. }
  destruct (G (to_broadcast st) st) as (Gc & Go & Gok & Gq).
  split; [exact Gc|]. split; [exact Go|]. split; [exact Gok|].
  rewrite Gq. destruct (to_broadcast st); reflexivity.
Qed.

(** X12.  [_broadcast_pending] returns with the queue empty, and every connection
    still registered afterwards was sent every queued frame, once each, in
    queue order, with no other send to it. *)
Theorem broadcast_pending_fifo st :
  NoDup (clients st) ->
  exists evs st',
    _broadcast_pending net st = (st', Ok tt) /\
    to_broadcast st' = [] /\
    wire st' = wire st ++ evs /\
    forall c, In c (clients st') ->
      In c (clients st) /\
      events_of c evs = map (fun p => SendEvent c p Sent) (to_broadcast st).
Proof.
  intros Hnd. unfold _broadcast_pending.
  destruct (flush_spec (to_broadcast st) st Hnd)
    as (evs & st' & Hrun & Hq & Hw & _ & _ & _ & _ & _ & Hsurv & _).
  exists evs, st'. split; [exact Hrun|]. split; [|split; [exact Hw|exact Hsurv]].
  rewrite Hq. destruct (to_broadcast st); reflexivity.
Qed.


End FlushTheorems.

Section RelayTheorems.
Variable net : list send_event -> sock -> bytes -> send_result.

(** X7.  A registered peer with an empty buffer sends the frame of a text in one
    piece: the clipboard writer is called once, with that text; every other
    registered connection is sent those same bytes exactly once; the sender
    is sent nothing and stays registered with an empty buffer. *)
Theorem peer_frame_applied_and_relayed st s text frame :
  NoDup (clients st) -> In s (clients st) -> rbuf st s = [] ->
  frame_text text = Ok frame ->
  exists st' evs,
    _handle_client net s (RecvData frame) st = (st', Ok tt) /\
    clip_writes st' = clip_writes st ++ [ClipWrite text (Some text)] /\
    wire st' = wire st ++ evs /\
    events_of s evs = [] /\
    (forall c, In c (clients st) -> c <> s ->
       exists r, events_of c evs = [SendEvent c frame r]) /\
    In s (clients st') /\ rbuf st' s = [].
Proof.
  intros Hnd Hin Hbuf Hf.
  destruct (frame_text_head _ _ [] Hf) as (data & He & Hp).
  rewrite app_nil_r in Hp.
  assert (Hne : exists b tl, frame = b :: tl).
  { apply frame_text_ok_inv in Hf.
    destruct Hf as (? & ? & ? & ? & ? & _ & _ & -> & _). eauto. }
  destruct Hne as (b & tl & Hfr).
  unfold _handle_client. apply existsb_eqb_in in Hin as Hex. rewrite Hex.
  cbn [negb]. rewrite Hfr, <- Hfr, Hbuf. cbn [app].
  rewrite process_frames_unfold, rbuf_set_rbuf_same, Hp.
  rewrite (utf8_decode_encode _ _ He). unfold bind.
  rewrite on_text_unfold, Hf. unfold _broadcast. rewrite broadcast_to_spec.
  cbv zeta. rewrite process_frames_unfold.
  cbn [rbuf set_rbuf mark_applied clients wire]. rewrite Nat.eqb_refl.
  cbn [parse_head]. do 2 eexists. split; [reflexivity|].
  cbn [clip_writes wire rbuf clients]. rewrite Nat.eqb_refl.
  split; [reflexivity|]. split; [reflexivity|].
  assert (Hs : events_of s
                 (broadcast_events net (wire st) (clients st) frame (Some s)) = []).
  { apply events_of_absent. right. cbn. apply Nat.eqb_refl. }
  split; [exact Hs|]. split; [|split; [|reflexivity]].
  - intros c Hc Hcs. apply events_of_once; auto. cbn.
    apply Nat.eqb_neq. exact Hcs.
  - apply in_drop_all. split; [exact Hin|].
    rewrite in_failed_socks, Hs. intros (e & [] & _).
Qed.

(** X6.  Peer close ([recv] gives no bytes), a failed [recv], and any event on a
    socket the registry does not know all end in the same way: that socket is
    unregistered and closed, its pending bytes are not looked at, nothing is
    sent or written, and every other connection stays as it was.  A [recv]
    that would block changes nothing. *)
Theorem transport_fault_drops_one s r st :
  (r = RecvData [] \/ r = RecvFailed \/ ~ In s (clients st)) ->
  _handle_client net s r st = _drop_client s st /\
  ~ In s (clients (fst (_handle_client net s r st))) /\
  In s (closed (fst (_handle_client net s r st))) /\
  wire (fst (_handle_client net s r st)) = wire st /\
  clip_writes (fst (_handle_client net s r st)) = clip_writes st /\
  rbuf (fst (_handle_client net s r st)) = rbuf st /\
  (forall c, c <> s ->
     (In c (clients (fst (_handle_client net s r st))) <-> In c (clients st))) /\
  (In s (clients st) ->
   _handle_client net s RecvWouldBlock st = (st, Ok tt)).
Proof.
  intros H.
  assert (E : _handle_client net s r st = _drop_client s st).
  { unfold _handle_client.
    destruct (existsb (Nat.eqb s) (clients st)) eqn:Ex; [|reflexivity].
    cbn [negb]. apply existsb_eqb_in in Ex.
    destruct H as [->|[->|H]]; [reflexivity|reflexivity|contradiction]. }
  rewrite E. split; [reflexivity|]. cbn.
  split; [intros Hc; apply in_remove_sock in Hc; tauto|].
  split; [auto|]. repeat (split; [reflexivity|]). split.
  - intros c Hne. rewrite in_remove_sock. tauto.
  - intros Hin. unfold _handle_client. apply existsb_eqb_in in Hin.
    rewrite Hin. reflexivity.
Qed.

(** X9.  The initial push: when the clipboard read gives a non-empty text that
    fits a frame, [_accept] sends that frame once, to the new connection
    only.  If the send returns, the connection is registered, last in the
    registry, with an empty buffer; otherwise it is not registered and is
    closed.  Connections registered before stay registered. *)
Theorem accept_initial_push conn txt frame st :
  ~ In conn (clients st) -> txt <> [] -> frame_text txt = Ok frame ->
  exists r,
    snd (_accept net conn (true, Some txt) st) = Ok tt /\
    wire (fst (_accept net conn (true, Some txt) st))
    = wire st ++ [SendEvent conn frame r] /\
    (r = Sent ->
     clients (fst (_accept net conn (true, Some txt) st)) = clients st ++ [conn] /\
     rbuf (fst (_accept net conn (true, Some txt) st)) conn = []) /\
    (r <> Sent ->
     clients (fst (_accept net conn (true, Some txt) st)) = clients st /\
     In conn (closed (fst (_accept net conn (true, Some txt) st)))).
Proof.
  intros Hnew Hne Hf. rewrite accept_unfold.
  apply nonempty_true in Hne. rewrite Hne, Hf. unfold bind, sendall.
  assert (Hex : existsb (Nat.eqb conn) (clients st) = false).
  { destruct (existsb (Nat.eqb conn) (clients st)) eqn:E; [|reflexivity].
    apply existsb_eqb_in in E. contradiction. }
  assert (Hrm : remove_sock conn (clients st ++ [conn]) = clients st).
  { unfold remove_sock. rewrite filter_app. cbn [filter].
    rewrite Nat.eqb_refl. cbn [negb]. rewrite app_nil_r.
    apply forallb_filter_id. apply forallb_forall. intros x Hx.
    apply negb_true_iff, Nat.eqb_neq. intros ->. contradiction. }
  cbn [wire register_client].
  exists (net (wire st) conn frame).
  destruct (net (wire st) conn frame);
    cbn [fst snd ret _drop_client modify wire clients rbuf closed].
  all: cbn [register_client clients rbuf closed].
  all: rewrite ?Hex, ?Nat.eqb_refl, ?Hrm.
  - split; [reflexivity|]. split; [reflexivity|].
    split; [auto|]. intros E. elim E. reflexivity.
  - split; [reflexivity|]. split; [reflexivity|].
    split; [discriminate|]. intros _. cbn. auto.
  - split; [reflexivity|]. split; [reflexivity|].
    split; [discriminate|]. intros _. cbn. auto.
Qed.

(** X10.  When the clipboard holds a text that cannot be framed (more than
    [MAX_BYTES] bytes of UTF-8), [_accept] sends nothing and drops the
    connection it has just accepted. *)
Theorem accept_unframeable_drops conn txt e st :
  txt <> [] -> frame_text txt = Raise e ->
  snd (_accept net conn (true, Some txt) st) = Ok tt /\
  wire (fst (_accept net conn (true, Some txt) st)) = wire st /\
  ~ In conn (clients (fst (_accept net conn (true, Some txt) st))) /\
  In conn (closed (fst (_accept net conn (true, Some txt) st))) /\
  (forall c, c <> conn ->
     (In c (clients (fst (_accept net conn (true, Some txt) st)))
      <-> In c (clients st))).
Proof.
  intros Hne Hf. rewrite accept_unfold.
  apply nonempty_true in Hne. rewrite Hne, Hf.
  cbn [fst snd _drop_client modify wire clients closed register_client].
  split; [reflexivity|]. split; [reflexivity|].
  split; [intros H; apply in_remove_sock in H; tauto|].
  split; [left; reflexivity|].
  intros c Hc. rewrite in_remove_sock.
  destruct (existsb (Nat.eqb conn) (clients st)).
  - tauto.
  - rewrite in_app_iff. cbn [In]. intuition congruence.
Qed.

(** X11.  When the clipboard read fails or gives the empty string, [_accept]
    registers the connection with an empty buffer and sends nothing. *)
Theorem accept_without_text conn read st :
  (read = (true, Some []) \/ fst read = false \/ snd read = None) ->
  _accept net conn read st = (register_client conn st, Ok tt) /\
  In conn (clients (fst (_accept net conn read st))) /\
  rbuf (fst (_accept net conn read st)) conn = [] /\
  wire (fst (_accept net conn read st)) = wire st /\
  (forall c, c <> conn ->
     rbuf (fst (_accept net conn read st)) c = rbuf st c /\
     (In c (clients (fst (_accept net conn read st))) <-> In c (clients st))).
Proof.
  intros H.
  assert (E : _accept net conn read st = (register_client conn st, Ok tt)).
  { rewrite accept_unfold. destruct read as [[|] [txt|]]; try reflexivity.
    destruct H as [[= ->]|[H|H]]; [reflexivity|discriminate H|discriminate H]. }
  rewrite E. split; [reflexivity|].
  cbn [fst wire clients rbuf register_client]. rewrite Nat.eqb_refl.
  split.
  { destruct (existsb (Nat.eqb conn) (clients st)) eqn:Ex.
    - apply existsb_eqb_in. exact Ex.
    - apply in_or_app. right. left. reflexivity. }
  split; [reflexivity|]. split; [reflexivity|].
  intros c Hc. apply Nat.eqb_neq in Hc as Hb. rewrite Hb.
  split; [reflexivity|].
  destruct (existsb (Nat.eqb conn) (clients st)); [tauto|].
  rewrite in_app_iff. cbn [In]. intuition congruence.
Qed.
End RelayTheorems.

(** X15.  The watcher never touches a socket, the registry, a receive buffer or
    the clipboard writer: whatever the read gives, and also when the tick
    raises, it can only set its two fields and put at most one frame at the
    back of the queue. *)
Theorem watch_tick_confined read st :
  clients (fst (watch_tick read st)) = clients st /\
  rbuf (fst (watch_tick read st)) = rbuf st /\
  selector (fst (watch_tick read st)) = selector st /\
  closed (fst (watch_tick read st)) = closed st /\
  wire (fst (watch_tick read st)) = wire st /\
  clip_writes (fst (watch_tick read st)) = clip_writes st /\
  exists new,
    to_broadcast (fst (watch_tick read st)) = to_broadcast st ++ new /\
    (length new <= 1)%nat.
Proof.
  assert (Hsame : forall x : BridgeServer,
             x = st \/ x = set_last_polled
                            match read with (_, Some t) => t | _ => [] end st ->
             clients x = clients st /\ rbuf x = rbuf st /\
             selector x = selector st /\ closed x = closed st /\
             wire x = wire st /\ clip_writes x = clip_writes st /\
             exists new, to_broadcast x = to_broadcast st ++ new /\
                         (length new <= 1)%nat).
  { intros x [->| ->]; repeat (split; [reflexivity|]); exists [];
      cbn; rewrite app_nil_r; auto. }
  unfold watch_tick.
  destruct read as [[|] [txt|]];
    try solve [change (fst (ret tt st)) with st; apply Hsame; auto].
  destruct (differs txt (_last_polled st));
    [|change (fst (ret tt st)) with st; apply Hsame; auto].
  unfold bind.
  destruct (differs txt (_last_sent_from_pc st));
    [|change (fst (match ret tt st with
                   | (st', Ok _) => modify (set_last_polled txt) st'
                   | (st', Raise e) => (st', Raise e)
                   end)) with (set_last_polled txt st); apply Hsame; auto].
  destruct (negb (str_eqb txt []));
    [|change (fst (match ret tt st with
                   | (st', Ok _) => modify (set_last_polled txt) st'
                   | (st', Raise e) => (st', Raise e)
                   end)) with (set_last_polled txt st); apply Hsame; auto].
  destruct (frame_text txt) as [frame|e] eqn:Ef.
  - rewrite (queue_from_pc_ok _ _ _ Ef). cbn.
    repeat (split; [reflexivity|]). exists [frame]. auto.
  - rewrite (queue_from_pc_raise _ _ _ Ef). cbn.
    repeat (split; [reflexivity|]). exists []. rewrite app_nil_r. auto.
Qed.

(** X16.  Reading the same text again does nothing: after a tick that returned,
    a tick with the same read leaves the whole state as it is. *)
Theorem watch_tick_same_text_idle st t :
  snd (watch_tick (true, Some t) st) = Ok tt ->
  watch_tick (true, Some t) (fst (watch_tick (true, Some t) st))
  = (fst (watch_tick (true, Some t) st), Ok tt).
Proof.
  intros Hok. pose proof (watch_tick_observed st t Hok) as Hp.
  set (st1 := fst (watch_tick (true, Some t) st)) in *.
  unfold watch_tick at 1.
  replace (differs t (_last_polled st1)) with false
    by (symmetry; apply differs_false; exact Hp).
  reflexivity.
Qed.

Section EndToEnd.
Variable net : list send_event -> sock -> bytes -> send_result.

(** X19.  A local change goes out once.  With the queue empty, a tick that reads
    a new text [t] (not the last one polled, not the last one sent, not
    empty, fitting a frame) followed by [_broadcast_pending] sends the frame
    of [t] exactly once to every connection that is still registered, and
    nothing else; a second tick reading [t] followed by another
    [_broadcast_pending] sends nothing at all. *)
Theorem local_change_broadcast_once st t frame :
  NoDup (clients st) -> to_broadcast st = [] ->
  _last_polled st <> Some t -> _last_sent_from_pc st <> Some t -> t <> [] ->
  frame_text t = Ok frame ->
  exists evs st2,
    _broadcast_pending net (fst (watch_tick (true, Some t) st)) = (st2, Ok tt) /\
    wire st2 = wire st ++ evs /\
    (forall c, In c (clients st2) -> events_of c evs = [SendEvent c frame Sent]) /\
    (forall e, In e evs -> ev_payload e = frame) /\
    to_broadcast st2 = [] /\
    wire (fst (_broadcast_pending net (fst (watch_tick (true, Some t) st2))))
    = wire st2.
Proof.
  intros Hnd Hq Hp Hs Hne Hf.
  assert (Ht : watch_tick (true, Some t) st
               = (set_last_polled t
                    (set_queue (to_broadcast st ++ [frame]) (set_last_sent t st)),
                  Ok tt)).
  { unfold watch_tick. apply differs_true in Hp. apply differs_true in Hs.
    apply nonempty_true in Hne. rewrite Hp, Hs, Hne. unfold bind.
    rewrite (queue_from_pc_ok _ _ _ Hf). reflexivity. }
  rewrite Ht. cbn [fst]. rewrite Hq. cbn [app].
  set (st1 := set_last_polled t (set_queue [frame] (set_last_sent t st))).
  unfold _broadcast_pending at 1.
  change (to_broadcast st1) with [frame]. cbn [flush]. unfold bind, modify.
  destruct (broadcast_survivors net frame None (set_queue [] st1) Hnd)
    as (evs & st2 & Hrun & Hw & _ & Hq2 & Hp2 & _ & _ & Hnd2 & Hsurv & _).
  rewrite Hrun. exists evs, st2. split; [reflexivity|].
  split; [exact Hw|]. split; [intros c Hc; apply (Hsurv c Hc); reflexivity|].
  split.
  { unfold _broadcast in Hrun. rewrite broadcast_to_spec in Hrun.
    cbv zeta in Hrun. injection Hrun as Hst. rewrite <- Hst in Hw.
    cbn [wire] in Hw. apply app_inv_head in Hw. subst evs.
    intros e He.
    exact (proj1 (Forall_forall _ _)
                 (broadcast_events_payload net frame None _ _) e He). }
  split; [exact Hq2|].
  cbn [_last_polled set_queue st1 set_last_polled] in Hp2.
  unfold watch_tick.
  replace (differs t (_last_polled st2)) with false
    by (symmetry; apply differs_false; exact Hp2).
  cbn [fst ret]. unfold _broadcast_pending. rewrite Hq2. reflexivity.
Qed.

(** X20.  A text that came from a peer does not go out again.  With the queue
    empty, after the event loop has handled a frame with text [X], a tick
    that reads [X] from the clipboard followed by [_broadcast_pending]
    sends nothing, writes nothing to the clipboard and leaves the queue
    empty. *)
Theorem peer_text_is_not_echoed st sender X :
  to_broadcast st = [] ->
  wire (fst (_broadcast_pending net
               (fst (watch_tick (true, Some X)
                       (fst (_on_text_from_client net sender X st))))))
  = wire (fst (_on_text_from_client net sender X st)) /\
  clip_writes (fst (_broadcast_pending net
               (fst (watch_tick (true, Some X)
                       (fst (_on_text_from_client net sender X st))))))
  = clip_writes (fst (_on_text_from_client net sender X st)) /\
  to_broadcast (fst (_broadcast_pending net
               (fst (watch_tick (true, Some X)
                       (fst (_on_text_from_client net sender X st))))))
  = [].
Proof.
  intros Hq. destruct (on_text_fields net sender X st) as (_ & Hq1 & _ & Hs1 & _).
  set (st1 := fst (_on_text_from_client net sender X st)) in *.
  assert (Hq2 : to_broadcast (fst (watch_tick (true, Some X) st1)) = []
                /\ wire (fst (watch_tick (true, Some X) st1)) = wire st1
                /\ clip_writes (fst (watch_tick (true, Some X) st1))
                   = clip_writes st1).
  { unfold watch_tick.
    replace (differs X (_last_sent_from_pc st1)) with false
      by (symmetry; apply differs_false; exact Hs1).
    destruct (differs X (_last_polled st1)); cbn; rewrite Hq1, Hq; auto. }
  destruct Hq2 as (Hq2 & Hw2 & Hc2).
  set (st2 := fst (watch_tick (true, Some X) st1)) in *.
  unfold _broadcast_pending. rewrite Hq2. cbn. auto.
Qed.
End EndToEnd.

Lemma fold_cons_in (l : list sock) : forall acc c,
  In c (fold_left (fun a s => s :: a) l acc) <-> In c l \/ In c acc.
Proof.
  induction l as [|x l IH]; intros acc c; cbn [fold_left In]; [tauto|].
  rewrite IH. cbn [In]. tauto.
Qed.

(** X21.  After [shutdown] the stop event is set, the registry and the selector
    are empty, there is no listening socket, and every client that was
    registered and the listening socket are closed; nothing is sent, and
    nothing that was closed before is forgotten.  Calling it a second time
    changes nothing. *)
Theorem shutdown_closes_all p :
  stop_set (shutdown p) = true /\
  clients (srv (shutdown p)) = [] /\
  selector (srv (shutdown p)) = [] /\
  listening (shutdown p) = None /\
  (forall c, In c (closed (srv (shutdown p))) <->
     In c (clients (srv p)) \/ listening p = Some c \/ In c (closed (srv p))) /\
  wire (srv (shutdown p)) = wire (srv p) /\
  shutdown (shutdown p) = shutdown p.
Proof.
  unfold shutdown. cbn [srv stop_set listening clients selector closed wire].
  repeat (split; [reflexivity|]). split; [|split; reflexivity].
  intros c. destruct (listening p) as [l|]; cbn [In]; rewrite fold_cons_in.
  - split; [intros [<-|[H|H]]; auto|intros [H|[[= <-]|H]]; auto].
  - split; [intros [H|H]; auto|intros [H|[H|H]]; auto; discriminate].
Qed.

(** ** Chunking at the server *)

Lemma residue_quiescent_aux n : forall b ts r,
  (length b < n)%nat ->
  decode_frames b = Some (ts, Open r) -> decode_frames r = Some ([], Open r).
Proof.
  induction n as [|n IH]; intros b ts r Hn; [lia|].
  rewrite (decode_frames_unfold b).
  destruct (parse_head b) eqn:E; try discriminate.
  - intros [= <- <-]. rewrite decode_frames_unfold, E. reflexivity.
  - apply parse_head_complete_shorter in E. unfold deliver.
    destruct (decode_frames rest) as [[ts' s']|] eqn:Ed; [|discriminate].
    intros H. apply (IH rest ts' r); [lia|].
    destruct (utf8_decode payload); injection H as _ <-; exact Ed.
Qed.

Lemma residue_quiescent b ts r :
  decode_frames b = Some (ts, Open r) -> decode_frames r = Some ([], Open r).
Proof. apply (residue_quiescent_aux (S (length b))). lia. Qed.

Section Chunking.
Variable net : list send_event -> sock -> bytes -> send_result.

Lemma handle_chunks_dropped s chunks : forall st,
  ~ In s (clients st) ->
  exists st',
    handle_chunks net s chunks st = (st', Ok tt) /\
    clip_writes st' = clip_writes st /\ ~ In s (clients st').
Proof.
  induction chunks as [|c chunks IH]; intros st Hn.
  - exists st. cbn. auto.
  - cbn [handle_chunks]. unfold bind, _handle_client.
    assert (Hex : existsb (Nat.eqb s) (clients st) = false).
    { destruct (existsb (Nat.eqb s) (clients st)) eqn:E; [|reflexivity].
      apply existsb_eqb_in in E. contradiction. }
    rewrite Hex. cbn [negb _drop_client modify].
    destruct (IH (Server (remove_sock s (clients st)) (rbuf st) (to_broadcast st)
                         (_last_polled st) (_last_sent_from_pc st)
                         (remove_sock s (selector st)) (s :: closed st)
                         (wire st) (clip_writes st)))
      as (st' & Hrun & Hw & Hc).
    { cbn [clients]. intros H. apply in_remove_sock in H. tauto. }
    exists st'. auto.
Qed.

Lemma handle_chunks_decodes s chunks : forall st,
  In s (clients st) ->
  decode_frames (rbuf st s) = Some ([], Open (rbuf st s)) ->
  Forall (fun c => c <> []) chunks ->
  exists ts status st',
    decode_frames (rbuf st s ++ concat chunks) = Some (ts, status) /\
    handle_chunks net s chunks st = (st', Ok tt) /\
    clip_writes st' = clip_writes st ++ map (fun t => ClipWrite t (Some t)) ts /\
    match status with
    | Open residue => rbuf st' s = residue /\ In s (clients st')
    | Dropped _ => ~ In s (clients st')
    end.
Proof.
  induction chunks as [|c chunks IH]; intros st Hin Hq Hne.
  - exists [], (Open (rbuf st s)), st. cbn [concat]. rewrite app_nil_r.
    cbn. rewrite app_nil_r. auto.
  - inversion Hne as [|? ? Hc Hne']; subst.
    cbn [handle_chunks concat]. unfold bind, _handle_client.
    apply existsb_eqb_in in Hin as Hex. rewrite Hex. cbn [negb].
    destruct c as [|x c]; [congruence|].
    destruct (process_frames_decodes net s (set_rbuf s (rbuf st s ++ x :: c) st))
      as (ts1 & status1 & st1 & Hd1 & Hrun1 & Hw1 & Hfin1).
    rewrite rbuf_set_rbuf_same in Hd1. rewrite Hrun1.
    cbn [clip_writes set_rbuf clients] in Hw1, Hfin1.
    rewrite app_assoc, <- decode_frames_app, Hd1.
    destruct status1 as [r|why].
    + destruct Hfin1 as (Hr & Hcl & _).
      destruct (IH st1) as (ts2 & status2 & st2 & Hd2 & Hrun2 & Hw2 & Hfin2).
      { apply Hcl, Hin. }
      { rewrite Hr. exact (residue_quiescent _ _ _ Hd1). }
      { exact Hne'. }
      rewrite Hr in Hd2. cbn [feed]. rewrite Hd2.
      exists (ts1 ++ ts2), status2, st2. split; [reflexivity|].
      split; [exact Hrun2|]. split; [|exact Hfin2].
      rewrite Hw2, Hw1, map_app, app_assoc. reflexivity.
    + destruct Hfin1 as (Hn1 & _).
      destruct (handle_chunks_dropped s chunks st1 Hn1) as (st2 & Hrun2 & Hw2 & Hn2).
      exists ts1, (Dropped why), st2. cbn [feed]. split; [reflexivity|].
      split; [exact Hrun2|]. split; [congruence|exact Hn2].
Qed.

(** X8.  How a byte stream is cut into reads does not matter to the server: for
    a registered connection with an empty buffer and any sequence of
    non-empty chunks, handling them one after the other returns, calls the
    clipboard writer with exactly the texts the decoder finds in the
    concatenated bytes, in order, and ends with the connection registered
    and holding the undecoded rest, or dropped, as the decoder says. *)
Theorem chunking_does_not_matter s chunks st :
  In s (clients st) -> rbuf st s = [] ->
  Forall (fun c => c <> []) chunks ->
  exists ts status st',
    decode_frames (concat chunks) = Some (ts, status) /\
    handle_chunks net s chunks st = (st', Ok tt) /\
    clip_writes st' = clip_writes st ++ map (fun t => ClipWrite t (Some t)) ts /\
    match status with
    | Open residue => rbuf st' s = residue /\ In s (clients st')
    | Dropped _ => ~ In s (clients st')
    end.
Proof.
  intros Hin Hb Hne.
  destruct (handle_chunks_decodes s chunks st Hin) as (ts & status & st' & H);
    [rewrite Hb; reflexivity|exact Hne|].
  rewrite Hb in H. exists ts, status, st'. exact H.
Qed.

(** X14.  No handler of the event loop leaves a closed socket in the registry:
    if no registered connection is closed before [_handle_client],
    [_broadcast_pending] or [_accept] of a socket not closed before, none
    is afterwards. *)
Theorem registered_connections_stay_open :
  (forall s r st,
     clients_open st -> clients_open (fst (_handle_client net s r st))) /\
  (forall st,
     clients_open st -> clients_open (fst (_broadcast_pending net st))) /\
  (forall conn read st,
     ~ In conn (closed st) -> clients_open st ->
     clients_open (fst (_accept net conn read st))).
Proof.
  split; [intros s r st; apply handle_client_registry|].
  split; [intros st; apply broadcast_pending_registry|].
  intros conn read st. apply accept_registry.
Qed.
End Chunking.

(** X17.  A tick raises in one case only: the text read is new to both fields,
    not empty, and cannot be framed; the exception is then the one
    [frame_text] raised, and [_last_polled] is not updated.  In every other
    case the tick returns with the text read in [_last_polled]. *)
Theorem watch_tick_raises_iff st t e :
  (snd (watch_tick (true, Some t) st) = Raise e <->
   _last_polled st <> Some t /\ _last_sent_from_pc st <> Some t /\ t <> [] /\
   frame_text t = Raise e) /\
  (snd (watch_tick (true, Some t) st) = Raise e ->
   _last_polled (fst (watch_tick (true, Some t) st)) = _last_polled st) /\
  (snd (watch_tick (true, Some t) st) = Ok tt ->
   _last_polled (fst (watch_tick (true, Some t) st)) = Some t).
Proof.
  split; [|split; [|apply watch_tick_observed]].
  - unfold watch_tick.
    destruct (differs t (_last_polled st)) eqn:Ep.
    2:{ apply differs_false in Ep. cbn. split; [discriminate|tauto]. }
    apply differs_true in Ep. unfold bind.
    destruct (differs t (_last_sent_from_pc st)) eqn:Es.
    2:{ apply differs_false in Es. cbn. split; [discriminate|tauto]. }
    apply differs_true in Es.
    destruct (negb (str_eqb t [])) eqn:En.
    2:{ assert (t = [])
          by (apply str_eqb_eq; destruct (str_eqb t []); [reflexivity|discriminate]).
        cbn. split; [discriminate|tauto]. }
    apply nonempty_true in En.
    destruct (frame_text t) as [frame|e'] eqn:Ef.
    + rewrite (queue_from_pc_ok _ _ _ Ef). cbn.
      split; [discriminate|]. intros (_ & _ & _ & H). discriminate H.
    + rewrite (queue_from_pc_raise _ _ _ Ef). cbn.
      split; [intros [= <-]; auto|]. intros (_ & _ & _ & [= <-]). reflexivity.
  - unfold watch_tick.
    destruct (differs t (_last_polled st)); [|cbn; discriminate].
    unfold bind.
    destruct (differs t (_last_sent_from_pc st)); [|cbn; discriminate].
    destruct (negb (str_eqb t [])); [|cbn; discriminate].
    destruct (frame_text t) as [frame|e'] eqn:Ef.
    + rewrite (queue_from_pc_ok _ _ _ Ef). cbn. discriminate.
    + rewrite (queue_from_pc_raise _ _ _ Ef). cbn. reflexivity.
Qed.

(** X18.  The watcher remembers one text only: when the clipboard goes from [a]
    to a different text [b] and back to [a], the ticks that see [b] and then
    [a] each put their frame on the queue, in that order. *)
Theorem change_and_back_both_queued st a b fa fb :
  _last_polled st = Some a -> a <> b -> a <> [] -> b <> [] ->
  _last_sent_from_pc st <> Some b ->
  frame_text a = Ok fa -> frame_text b = Ok fb ->
  to_broadcast
    (fst (watch_tick (true, Some a) (fst (watch_tick (true, Some b) st))))
  = to_broadcast st ++ [fb; fa].
Proof.
  intros Hp Hab Ha Hb Hs Hfa Hfb.
  assert (T1 : watch_tick (true, Some b) st
               = (set_last_polled b
                    (set_queue (to_broadcast st ++ [fb]) (set_last_sent b st)),
                  Ok tt)).
  { unfold watch_tick.
    replace (differs b (_last_polled st)) with true
      by (symmetry; apply differs_true; rewrite Hp; congruence).
    apply differs_true in Hs. apply nonempty_true in Hb. rewrite Hs, Hb.
    unfold bind. rewrite (queue_from_pc_ok _ _ _ Hfb). reflexivity. }
  rewrite T1. cbn [fst]. unfold watch_tick.
  cbn [_last_polled _last_sent_from_pc set_last_polled set_queue set_last_sent].
  replace (differs a (Some b)) with true
    by (symmetry; apply differs_true; congruence).
  apply nonempty_true in Ha. rewrite Ha. unfold bind.
  rewrite (queue_from_pc_ok _ _ _ Hfa). cbn. rewrite <- app_assoc. reflexivity.
Qed.

Section ClipboardFacts.
Import ClipboardPort.

Lemma read_with_spec h tools : forall out,
  read_with h tools = (true, Some out) <->
  exists pre t post,
    tools = pre ++ t :: post /\ Forall (passed_over h) pre /\
    which h t = true /\ run_reader h t = Completed 0 out.
Proof.
  induction tools as [|u tools IH]; intros out; cbn [read_with].
  - split; [discriminate|]. intros (pre & t & post & E & _).
    destruct pre; discriminate E.
  - destruct (which h u) eqn:Ew; cbn [negb].
    + destruct (run_reader h u) as [rc o|] eqn:Er.
      * destruct (Z.eqb_spec rc 0) as [->|Hrc].
        -- split.
           ++ intros [= <-]. exists [], u, tools. repeat split; auto.
           ++ intros (pre & t & post & E & Hpre & Hw & Hr).
              destruct pre as [|p pre]; cbn in E; injection E as <- ->.
              ** congruence.
              ** inversion Hpre as [|? ? [Hp|(rc & o' & Hne & Hp)] _]; subst;
                   congruence.
        -- rewrite IH. split.
           ++ intros (pre & t & post & -> & Hpre & Hw & Hr).
              exists (u :: pre), t, post. repeat split; auto.
              constructor; [right; eauto|exact Hpre].
           ++ intros (pre & t & post & E & Hpre & Hw & Hr).
              destruct pre as [|p pre]; cbn in E; injection E as <- ->.
              ** congruence.
              ** inversion Hpre; subst. exists pre, t, post. auto.
      * split; [discriminate|].
        intros (pre & t & post & E & Hpre & Hw & Hr).
        destruct pre as [|p pre]; cbn in E; injection E as <- ->.
        -- congruence.
        -- inversion Hpre as [|? ? [Hp|(rc & o' & Hne & Hp)] _]; subst;
             congruence.
    + rewrite IH. split.
      * intros (pre & t & post & -> & Hpre & Hw & Hr).
        exists (u :: pre), t, post. repeat split; auto.
        constructor; [left; exact Ew|exact Hpre].
      * intros (pre & t & post & E & Hpre & Hw & Hr).
        destruct pre as [|p pre]; cbn in E; injection E as <- ->.
        -- congruence.
        -- inversion Hpre; subst. exists pre, t, post. auto.
Qed.

Lemma read_with_shape h tools :
  (exists out, read_with h tools = (true, Some out)) \/
  read_with h tools = (false, None).
Proof.
  induction tools as [|u tools IH]; cbn [read_with]; [auto|].
  destruct (negb (which h u)); [exact IH|].
  destruct (run_reader h u) as [rc o|]; [|auto].
  destruct (rc =? 0); [eauto|exact IH].
Qed.

(** X22.  [read_clipboard_text] answers [(True, text)] or [(False, None)], never
    [(True, None)].  It answers [(True, out)] exactly when one of wl-paste,
    xclip, xsel (in this order) is installed and exits with status 0 and
    output [out], and every tool before it is missing or exited with a
    non-zero status.  In particular an installed tool that raises ends the
    search: later tools are not tried. *)
Theorem read_clipboard_first_success h :
  ((exists out, read_clipboard_text h = (true, Some out)) \/
   read_clipboard_text h = (false, None)) /\
  (forall out,
     read_clipboard_text h = (true, Some out) <->
     exists pre t post,
       readers = pre ++ t :: post /\ Forall (passed_over h) pre /\
       which h t = true /\ run_reader h t = Completed 0 out) /\
  (forall pre t post,
     readers = pre ++ t :: post -> Forall (passed_over h) pre ->
     which h t = true -> run_reader h t = RunRaised ->
     read_clipboard_text h = (false, None)).
Proof.
  unfold read_clipboard_text. split; [apply read_with_shape|].
  split; [apply read_with_spec|].
  intros pre t post E Hpre Hw Hr.
  destruct (read_with_shape h readers) as [[out Ho]|Hn]; [|exact Hn].
  exfalso. apply read_with_spec in Ho.
  destruct Ho as (pre' & t' & post' & E' & Hpre' & Hw' & Hr').
  rewrite E in E'. clear E.
  revert pre' E' Hpre'. induction pre as [|p pre IH]; intros pre' E' Hpre'.
  - destruct pre' as [|p' pre']; cbn in E'; injection E' as -> _.
    + congruence.
    + inversion Hpre' as [|? ? [Hp|(rc & o' & Hne & Hp)] _]; subst; congruence.
  - inversion Hpre as [|? ? Hp Hrest]; subst.
    destruct pre' as [|p' pre']; cbn in E'; injection E' as -> E'.
    + destruct Hp as [Hp|(rc & o' & Hne & Hp)]; congruence.
    + inversion Hpre'; subst. eapply IH; eauto.
Qed.

Lemma write_with_spec h text tools :
  write_with h tools text = true <->
  exists t, In t tools /\ which h t = true /\ run_writer h t text = true.
Proof.
  induction tools as [|u tools IH]; cbn [write_with].
  - split; [discriminate|]. intros (t & [] & _).
  - destruct (which h u) eqn:Ew; cbn [negb].
    + destruct (run_writer h u text) eqn:Er.
      * split; [|reflexivity]. intros _. exists u. cbn. auto.
      * rewrite IH. split.
        -- intros (t & Hin & Hw & Hr). exists t. cbn. auto.
        -- intros (t & [<-|Hin] & Hw & Hr); [congruence|eauto].
    + rewrite IH. split.
      * intros (t & Hin & Hw & Hr). exists t. cbn. auto.
      * intros (t & [<-|Hin] & Hw & Hr); [congruence|eauto].
Qed.

(** X23.  [write_clipboard_text] answers [True] exactly when one of wl-copy,
    xclip, xsel is installed and its run returns, whatever its exit status
    and whatever happened to the tools before it: unlike the reader, a tool
    that raises is passed over. *)
Theorem write_clipboard_any_tool h text :
  write_clipboard_text h text = true <->
  exists t, In t writers /\ which h t = true /\ run_writer h t text = true.
Proof. apply write_with_spec. Qed.
End ClipboardFacts.

(* ================================================================== *)
(** ** The further properties at sample inputs *)


Lemma three_clients_open : clients_open three_clients.
Proof. intros c _ []. Qed.

Lemma coalesced_frames_drain_witness :
  Forall2 (fun t f => frame_text t = Ok f) [hello; []] [hello_frame; empty_frame] /\
  decode_frames (concat [hello_frame; empty_frame]) = Some ([hello; []], Open []).
Proof.
  assert (H : Forall2 (fun t f => frame_text t = Ok f)
                      [hello; []] [hello_frame; empty_frame]).
  { constructor; [reflexivity|]. constructor; [reflexivity|constructor]. }
  split; [exact H|].
  exact (proj2 (coalesced_frames_drain [hello; []] [hello_frame; empty_frame] [] H)).
Defined.

Lemma partial_frame_waits_witness :
  frame_text hello = Ok hello_frame /\ (7 < length hello_frame)%nat /\
  decode_frames (firstn 7 hello_frame) = Some ([], Open (firstn 7 hello_frame)).
Proof.
  split; [reflexivity|]. split; [cbn; lia|].
  apply (partial_frame_waits hello hello_frame 7); [reflexivity|cbn; lia].
Defined.

Lemma received_frame_is_reencoded_witness :
  parse_head (hello_frame ++ [x01]) = Complete hello_utf8 [x01] /\
  utf8_decode hello_utf8 = Some hello /\
  exists frame, frame_text hello = Ok frame /\ hello_frame ++ [x01] = frame ++ [x01].
Proof.
  split; [reflexivity|]. split; [reflexivity|].
  apply (received_frame_is_reencoded (hello_frame ++ [x01]) hello_utf8 [x01] hello);
    reflexivity.
Defined.

Lemma transport_fault_drops_one_witness :
  ~ In 2%nat (clients (fst (_handle_client net_ok 2%nat (RecvData []) three_clients))) /\
  In 2%nat (closed (fst (_handle_client net_ok 2%nat (RecvData []) three_clients))).
Proof.
  destruct (transport_fault_drops_one net_ok 2%nat (RecvData []) three_clients
              (or_introl eq_refl)) as (_ & Hn & Hc & _).
  split; [exact Hn|exact Hc].
Defined.

Lemma peer_frame_applied_and_relayed_witness :
  NoDup (clients three_clients) /\ In 1%nat (clients three_clients) /\
  rbuf three_clients 1%nat = [] /\ frame_text hello = Ok hello_frame /\
  exists st' evs,
    _handle_client net_ok 1%nat (RecvData hello_frame) three_clients = (st', Ok tt) /\
    clip_writes st' = clip_writes three_clients ++ [ClipWrite hello (Some hello)] /\
    wire st' = wire three_clients ++ evs /\ events_of 1%nat evs = [].
Proof.
  split; [exact three_clients_nodup|]. split; [left; reflexivity|].
  split; [reflexivity|]. split; [reflexivity|].
  destruct (peer_frame_applied_and_relayed net_ok three_clients 1%nat hello
              hello_frame three_clients_nodup (or_introl eq_refl) eq_refl eq_refl)
    as (st' & evs & Hrun & Hc & Hw & He & _).
  exists st', evs. auto.
Defined.

Lemma accept_initial_push_witness :
  ~ In 4%nat (clients three_clients) /\ hello <> [] /\
  frame_text hello = Ok hello_frame /\
  exists r,
    wire (fst (_accept net_ok 4%nat (true, Some hello) three_clients))
    = wire three_clients ++ [SendEvent 4%nat hello_frame r].
Proof.
  assert (Hn : ~ In 4%nat (clients three_clients)).
  { cbn. intros [H|[H|[H|[]]]]; discriminate H. }
  assert (Hh : hello <> []) by discriminate.
  split; [exact Hn|]. split; [exact Hh|]. split; [reflexivity|].
  destruct (accept_initial_push net_ok 4%nat hello hello_frame three_clients
              Hn Hh eq_refl) as (r & _ & Hw & _).
  exists r. exact Hw.
Defined.

Lemma accept_unframeable_drops_witness :
  big_text <> [] /\ frame_text big_text = Raise ValueError_payload_too_large /\
  ~ In 4%nat (clients (fst (_accept net_ok 4%nat (true, Some big_text) three_clients))) /\
  In 4%nat (closed (fst (_accept net_ok 4%nat (true, Some big_text) three_clients))).
Proof.
  split; [exact big_text_nonempty|]. split; [exact frame_text_big|].
  destruct (accept_unframeable_drops net_ok 4%nat big_text _ three_clients
              big_text_nonempty frame_text_big) as (_ & _ & Hn & Hc & _).
  split; [exact Hn|exact Hc].
Defined.

Lemma accept_without_text_witness :
  _accept net_ok 4%nat (false, None) three_clients
  = (register_client 4%nat three_clients, Ok tt).
Proof.
  exact (proj1 (accept_without_text net_ok 4%nat (false, None) three_clients
                  (or_intror (or_introl eq_refl)))).
Defined.

Lemma broadcast_pending_fifo_witness :
  NoDup (clients two_queued) /\
  exists evs st',
    _broadcast_pending net_ok two_queued = (st', Ok tt) /\
    to_broadcast st' = [] /\
    wire st' = wire two_queued ++ evs.
Proof.
  split; [exact three_clients_nodup|].
  destruct (broadcast_pending_fifo net_ok two_queued three_clients_nodup)
    as (evs & st' & Hrun & Hq & Hw & _).
  exists evs, st'. auto.
Defined.


Lemma watch_tick_same_text_idle_witness :
  snd (watch_tick (true, Some hello) idle_server) = Ok tt /\
  watch_tick (true, Some hello) (fst (watch_tick (true, Some hello) idle_server))
  = (fst (watch_tick (true, Some hello) idle_server), Ok tt).
Proof.
  split; [reflexivity|].
  apply (watch_tick_same_text_idle idle_server hello). reflexivity.
Defined.

Lemma local_change_broadcast_once_witness :
  exists evs st2,
    _broadcast_pending net_ok (fst (watch_tick (true, Some hello) three_clients))
    = (st2, Ok tt) /\
    wire st2 = wire three_clients ++ evs /\
    wire (fst (_broadcast_pending net_ok (fst (watch_tick (true, Some hello) st2))))
    = wire st2.
Proof.
  destruct (local_change_broadcast_once net_ok three_clients hello hello_frame
              three_clients_nodup eq_refl)
    as (evs & st2 & Hrun & Hw & _ & _ & _ & Hagain);
    [discriminate|discriminate|discriminate|reflexivity|].
  exists evs, st2. auto.
Defined.

Lemma peer_text_is_not_echoed_witness :
  to_broadcast three_clients = [] /\
  wire (fst (_broadcast_pending net_ok
               (fst (watch_tick (true, Some hello)
                       (fst (_on_text_from_client net_ok 1%nat hello three_clients))))))
  = wire (fst (_on_text_from_client net_ok 1%nat hello three_clients)).
Proof.
  split; [reflexivity|].
  exact (proj1 (peer_text_is_not_echoed net_ok three_clients 1%nat hello eq_refl)).
Defined.

Lemma chunking_does_not_matter_witness :
  Forall (fun c : bytes => c <> []) [[x01; x00]; [x00; x00; x05; x68]; [x65; x6c; x6c; x6f]] /\
  exists st',
    handle_chunks net_ok 1%nat
      [[x01; x00]; [x00; x00; x05; x68]; [x65; x6c; x6c; x6f]] three_clients
    = (st', Ok tt) /\
    clip_writes st' = clip_writes three_clients ++ [ClipWrite hello (Some hello)].
Proof.
  assert (H : Forall (fun c : bytes => c <> [])
                     [[x01; x00]; [x00; x00; x05; x68]; [x65; x6c; x6c; x6f]]).
  { repeat constructor; discriminate. }
  split; [exact H|].
  destruct (chunking_does_not_matter net_ok 1%nat _ three_clients
              (or_introl eq_refl) eq_refl H)
    as (ts & status & st' & Hd & Hrun & Hw & _).
  exists st'. split; [exact Hrun|].
  assert (E : ts = [hello]).
  { change (decode_frames
              (concat [[x01; x00]; [x00; x00; x05; x68]; [x65; x6c; x6c; x6f]]))
      with (Some ([hello], Open [])) in Hd.
    injection Hd as <- _. reflexivity. }
  rewrite Hw, E. reflexivity.
Defined.

Lemma registered_connections_stay_open_witness :
  clients_open three_clients /\ ~ In 4%nat (closed three_clients) /\
  clients_open (fst (_accept net_2_down 4%nat (true, Some hello) three_clients)).
Proof.
  split; [exact three_clients_open|]. split; [intros []|].
  apply (proj2 (proj2 (registered_connections_stay_open net_2_down)));
    [intros []|exact three_clients_open].
Defined.

Lemma read_clipboard_first_success_witness :
  ClipboardPort.read_clipboard_text xclip_only = (true, Some hello).
Proof.
  apply (proj1 (proj2 (read_clipboard_first_success xclip_only)) hello).
  exists [ClipboardPort.wl_paste], ClipboardPort.xclip, [ClipboardPort.xsel].
  split; [reflexivity|]. split; [|split; reflexivity].
  constructor; [left; reflexivity|constructor].
Defined.

Lemma write_clipboard_any_tool_witness :
  ClipboardPort.write_clipboard_text xclip_only hello = true.
Proof.
  apply (proj2 (write_clipboard_any_tool xclip_only hello)).
  exists ClipboardPort.xclip. split; [right; left; reflexivity|].
  split; reflexivity.
Defined.

Lemma watch_tick_raises_iff_witness :
  snd (watch_tick (true, Some big_text) idle_server)
  = Raise ValueError_payload_too_large.
Proof.
  apply (proj2 (proj1 (watch_tick_raises_iff idle_server big_text
                         ValueError_payload_too_large))).
  split; [discriminate|]. split; [discriminate|].
  split; [exact big_text_nonempty|exact frame_text_big].
Defined.

Lemma change_and_back_both_queued_witness :
  to_broadcast
    (fst (watch_tick (true, Some hello)
            (fst (watch_tick (true, Some [104])
                    (set_last_polled hello idle_server)))))
  = to_broadcast (set_last_polled hello idle_server)
    ++ [[x01; x00; x00; x00; x01; x68]; hello_frame].
Proof.
  apply (change_and_back_both_queued (set_last_polled hello idle_server)
           hello [104]); try discriminate; reflexivity.
Defined.

Lemma frame_text_injective_witness :
  frame_text hello = Ok hello_frame /\
  frame_text (rev (rev hello)) = Ok hello_frame /\
  hello = rev (rev hello).
Proof.
  split; [reflexivity|]. split; [reflexivity|].
  apply (frame_text_injective hello (rev (rev hello)) hello_frame); reflexivity.
Defined.
